(* ===== verification/_CoqProject ===== *)
-Q . S2P
Prelude.v
Chain.v
Filter.v
JsDate.v
IsoDate.v
Deposit.v
Store.v
Notifier.v
Tracker.v
Logger.v
Spec.v
Scheduler.v
Api.v
Frontend.v
Server.v
