(* ===== verification/Prelude.v ===== *)
(** * eth-Deposit-Tracker: a verification development

    ** The program
    The repository is a Node.js backend ([src/backend/index.js]) and a React
    front end ([src/frontend/src/App.js]).  Every five seconds
    ([setInterval], index.js 132) the backend runs [trackDeposits]
    (index.js 68-129): it asks the Alchemy provider for the tip, scans the
    blocks after the global [lastProcessedBlock] (index.js 65) up to the
    tip, keeps the transactions addressed to the Beacon deposit contract,
    saves one Mongoose document per kept transaction, logs it and sends a
    Telegram message ([sendTelegramMessage], index.js 59-62), and moves the
    cursor past each block.  Two Express routes (index.js 135-163) read and
    insert documents; the front end shows them in a table.

    ** Files, in dependency order
    - [Prelude] (this file): the exception-state monad [exn] in which the
      async code is written.  A thrown exception keeps the writes made
      before it, as the globals and the database of a Node process do.  It
      holds the notation [x <- m ;; k] in [exn_scope], the monad laws, and
      [preserves R m]: [m] only moves its state along a preorder [R].  The
      combinators of [preserves], the hint database [exn_pres] and the
      tactics [papply] and [preserves_auto] prove frame and append-only
      properties of whole ticks.  [respects Q m] (hint database
      [exn_resp], tactic [respects_auto]) says that [m] sees its state only
      up to [Q]: the relational reasoning behind non-interference.
      [throws_only P m] (hint database [exn_throws], tactic
      [throws_auto]) says which exceptions can escape [m].  Also
      [elim_divs], which turns divisions and remainders by positive
      constants into bounded variables for [lia]; [star] with its lemmas;
      and [star_functional_final]: a functional relation has at most one
      final state.
    - [Chain]: the provider's transactions and blocks (fields the code
      reads; absent fields as [option]).  [Provider] is the record of the
      answers of [getBlockNumber] and [getBlockWithTransactions].  Also
      [js_error], and [toLowerCase] on ASCII text.
    - [Filter]: [contractAddress] (line 70) and the filter callback
      [is_deposit] (lines 93-95).  Case-insensitive equality [ci_eq] is an
      [Equivalence], and the filter is [Proper] for it.
    - [JsDate]: [new Date(t)] with ECMAScript TimeClip, and
      [Date.prototype.toString] for a UTC process, with the day-number to
      calendar conversion [civil_from_days].
    - [IsoDate]: [Date.prototype.toJSON]/[toISOString], which
      [res.json] uses (index.js 138), and [new Date(string)] on that
      format, as the front end uses it (App.js 43).
    - [Deposit]: the schema (lines 34-45) as a record of optional fields,
      the mapping [new_deposit] (lines 99-105), which throws a [TypeError]
      when [gasPrice] is undefined, [BigNumber] text, and Mongoose's
      [Date] cast ([validate]).
    - [Store]: [save] (validation, then append; the server's acceptance
      is an oracle) and [find] over the collection as a list.  [find]
      answers in insertion order: MongoDB does not promise any order
      without a sort, and the model fixes this one.
    - [Notifier]: the message template (lines 110-114) and its signature
      (line 60); [doc_message] reads the same text off a stored document.
    - [Tracker]: the state [World]: cursor, collection, Telegram outbox,
      log.  [trackDeposits] is written statement by statement:
      [process_deposit] (98-121), [process_block] (86-124), [block_loop]
      (81-125) with fuel equal to its iteration count, and [run_ticks] for
      ticks that do not overlap.  One tick alone in the step machine of
      [Scheduler] reaches exactly the world [trackDeposits] computes
      ([solo_run_refines_trackDeposits]).
    - [Logger]: the winston logger (index.js 18-25), its console and
      [logs/error.log] transports with their level filters; the catch of
      [mongoose.connect] and the port of [app.listen].
    - [Spec]: the tracking loop of spec section 4.6 as a relation
      [tick_spec] between the world before and after a tick, written from
      the specification (not from the code), and the tick against it.
    - [Scheduler]: ticks that overlap.  A suspended tick is a [pc] at one
      of its three awaits (lines 73, 87, 109).  The code between two awaits
      is a computation of [M] ([on_tip], [on_block], [on_save],
      [next_deposit]) under the outer catch ([run_segment]).  [step] fires
      a tick or settles an awaited promise with any answer.  [guarded_step]
      adds the single-flight guard that spec section 5 requires; it is
      modelled from the spec, since the code has none.
    - [Api]: the two Express routes on the same [World].  [getDeposits]
      answers [find] or a 500.  [postDeposit] builds the document from
      [req.body], saves it, logs it, or answers 500.  Mongoose's cast of
      each body field is an input ([Absent], [Null], [Cast],
      [Uncastable]).
    - [Frontend]: the React state of [App], [fetchDeposits] run once after
      mounting, the table rows [rows] keyed by [hash], the JSON value of a
      date and [new Date] of it, and the rendered JSX tree [render].
    - [Server]: the whole process as one machine [server_step]: the ticks
      of [Scheduler] ([step] or [guarded_step]) and route handlers
      suspended at their single await, interleaved at any await point.
      The relation [agree] (same cursor and messages) is what a tick can
      observe; the routes change only the collection and the log.

    ** What is proved
    - Cursor (C1-C5): monotone once set; a tick stops just before the
      first block whose iteration throws and otherwise reaches the tip; it
      does not depend on what the database accepts; exact first tick.
    - Filter and mapping (C6, C7, C18): the filter keeps exactly the
      transactions to the contract, in order.  A document's [fee] is the
      text of its transaction's [gasPrice], and the mapping fails exactly
      when [gasPrice] is undefined.  The timestamp passes Mongoose's cast
      iff it is within 8.64e12 s of the epoch.
    - Effects (C8, C9): one message per stored document, carrying that
      document's fields; every stored document comes from a kept
      transaction of a scanned block.
    - Failures (C10): when a block's first deposit saves and a later one
      lacks [gasPrice], every tick saves the first again.
    - Concurrency (C11, C12, C28): overlapping ticks can move the cursor
      back and save twice, and can save twice even along a run whose
      cursor never decreases (the guard is needed for the store too).
      Under the guard, the cursor never decreases on any run.
    - The loop and the collection (C13, C14, C19): the [for] loop equals
      processing the list [seqZ cur n] of block numbers in order (an
      equivalence with a reference definition).  Every stored document
      has its block number, a valid date, fee and hash (typing
      invariant).  The block numbers of the stored documents never
      decrease.
    - Routes (C15-C17): a POST that casts and saves appends exactly its
      document; any failure answers 500 and changes nothing; an empty
      body is stored as a document with no field.
    - The whole process (C20-C22): erasing the HTTP requests from any run
      of the server leaves a run of the ticks alone with the same cursor,
      in-flight ticks and messages (a simulation proved with [respects]).
      Under the guard the cursor never decreases whatever the requests.
      A GET's answer is a prefix of every later GET's answer (with
      [find] in insertion order).
    - Front end (C23, C24): the rendered table's cells read back as each
      document's block number, hash and fee.  Every document a tick stores
      is shown with the date it was stored with, through [toJSON] and
      [new Date]; the proof parses the ISO text back, splitting a day
      number into a 400-year era and a day of the era and turning each
      division by a constant into a quotient with a bounded remainder
      ([elim_divs]) for [lia].
    - Logs (C25): a tick's log is one entry per save attempt (the info
      line of a saved document, the error of a rejected one), then at
      most one ["Error tracking deposits:"] entry carrying an error of
      the provider or of the mapping; the console shows all of it and
      [logs/error.log] the rejected saves' errors and that abort.
    - The specification (C26, C27): when no record mapping fails, every
      tick is a tick of spec section 4.6 (a refinement of the declarative
      [tick_spec]); over a block with a transaction lacking [gasPrice] it
      is not.

    ** Bounds, fuel and numbers
    Block numbers and timestamps are [Z].  JavaScript numbers are exact
    below 2^53, and block numbers and [timestamp * 1000] stay far below
    that in the range TimeClip accepts.  Time values within 8.64e15 ms have
    years of at most six digits, which is why the ISO year field fits
    ([civil_year_bounds]).  The only fuel is the iteration
    count of the block loop; [block_loop_fuel] shows that any larger fuel
    gives the same result.  [run_ticks n] counts ticks and is not fuel.

    ** Not modelled
    - The provider SDK, MongoDB's server and connection buffering, and
      Telegram's API: their answers are inputs (records, oracles, or the
      nondeterministic answers of [step] and [server_step]).
    - Mongoose's casting of JSON values: an input of the POST route.
      Mongoose's [_id] and [__v] paths.  The JSON of the answers is
      modelled for dates only; numbers and strings cross it unchanged.
    - [new Date(string)] for strings other than the ISO format, which the
      back end never sends.
    - [console.log] output, winston's JSON line format, and
      [toLocaleString] of the table's dates, which depends on the
      browser's locale.
    - React's reconciliation and the DOM: the page is the tree [render].
    - Process set-up: dotenv, cors, [express.json()], the Alchemy and
      TelegramBot constructors, and the listening socket.
    - JavaScript strings are byte strings; [toLowerCase] is exact on the
      ASCII text of addresses.

    ** Partly modelled, and why
    - The Alchemy provider, MongoDB and Telegram are libraries: only what
      the code observes of them (answers, acceptance of a write, the sent
      text) is modelled.  Whether [bot.sendMessage]'s dropped promise can
      end the process depends on the promise library of the bot and on
      Node's unhandled-rejection mode, neither in the repository.
*)

From Stdlib Require Import ZArith Lia.
From stdpp Require Import base list.

(** ** Outcomes of a JavaScript computation *)

(** A computation either returns a value or throws an exception. *)
Inductive outcome (E A : Type) : Type :=
  | Ok (a : A)
  | Throw (e : E).
Arguments Ok {E A} a.
Arguments Throw {E A} e.

Definition succeeded {E A} (o : outcome E A) : bool :=
  match o with Ok _ => true | Throw _ => false end.

(** ** The exception-state monad

    A JavaScript [async] function that reads and writes globals and the
    database is a function from the state before it to the state after it
    and its outcome.  A thrown exception keeps every write made before it:
    nothing is rolled back. *)
Definition exn (S E A : Type) : Type := S -> S * outcome E A.

Section Exn.
Context {S E : Type}.

Definition ret {A} (a : A) : exn S E A := fun s => (s, Ok a).

Definition bind {A B} (m : exn S E A) (k : A -> exn S E B) : exn S E B :=
  fun s => match m s with
           | (s', Ok a) => k a s'
           | (s', Throw e) => (s', Throw e)
           end.

Definition throw {A} (e : E) : exn S E A := fun s => (s, Throw e).

(** [try { m } catch (e) { h(e) }] *)
Definition try_catch {A} (m : exn S E A) (h : E -> exn S E A) : exn S E A :=
  fun s => match m s with
           | (s', Throw e) => h e s'
           | r => r
           end.

Definition gets {A} (f : S -> A) : exn S E A := fun s => (s, Ok (f s)).

Definition modify (f : S -> S) : exn S E unit := fun s => (f s, Ok tt).

(** Lift an outcome computed without the state. *)
Definition lift {A} (o : outcome E A) : exn S E A :=
  fun s => (s, o).
End Exn.

Declare Scope exn_scope.
Delimit Scope exn_scope with exn.
Notation "x <- m ;; k" := (bind m (fun x => k))
  (at level 100, m at next level, right associativity) : exn_scope.
Notation "m ;; k" := (bind m (fun _ => k))
  (at level 100, k at level 200) : exn_scope.

(** ** Monad laws *)

Section Laws.
Context {S E : Type}.

Lemma bind_ret_l {A B} (a : A) (k : A -> exn S E B) s :
  bind (ret a) k s = k a s.
Proof. reflexivity. Qed.

Lemma bind_ret_r {A} (m : exn S E A) s : bind m ret s = m s.
Proof. unfold bind, ret. destruct (m s) as [? []]; reflexivity. Qed.

Lemma bind_assoc {A B C} (m : exn S E A) (k : A -> exn S E B)
      (h : B -> exn S E C) s :
  bind (bind m k) h s = bind m (fun a => bind (k a) h) s.
Proof. unfold bind. destruct (m s) as [? []]; reflexivity. Qed.

Lemma bind_throw {A B} (e : E) (k : A -> exn S E B) s :
  bind (throw e) k s = (s, Throw e).
Proof. reflexivity. Qed.

Lemma bind_ok {A B} (m : exn S E A) (k : A -> exn S E B) s s' a :
  m s = (s', Ok a) -> bind m k s = k a s'.
Proof. unfold bind. intros ->. reflexivity. Qed.

Lemma bind_ext {A B} (m : exn S E A) (k1 k2 : A -> exn S E B) s :
  (forall a s', k1 a s' = k2 a s') -> bind m k1 s = bind m k2 s.
Proof. intros H. unfold bind. destruct (m s) as [? []]; auto. Qed.

Lemma try_catch_bind_ok {A B} (m : exn S E A) (k : A -> exn S E B) h s s' a :
  m s = (s', Ok a) -> try_catch (bind m k) h s = try_catch (k a) h s'.
Proof. unfold try_catch, bind. by intros ->. Qed.

Lemma try_catch_bind_err {A B} (m : exn S E A) (k : A -> exn S E B) h s s' e :
  m s = (s', Throw e) -> try_catch (bind m k) h s = h e s'.
Proof. unfold try_catch, bind. by intros ->. Qed.

Lemma bind_err {A B} (m : exn S E A) (k : A -> exn S E B) s s' e :
  m s = (s', Throw e) -> bind m k s = (s', Throw e).
Proof. unfold bind. intros ->. reflexivity. Qed.
End Laws.

Create Rewrite HintDb exn_simpl.
#[export] Hint Rewrite @bind_ret_l @bind_assoc @bind_throw : exn_simpl.

(** ** Computations that move the state forward

    [preserves R m]: whatever the start state, the state after [m] is
    [R]-related to it, whether [m] returns or throws.  With [R] a preorder
    the property composes through [bind] and [try_catch]; this is how the
    monotonicity of the cursor is proved for the whole tick. *)
Definition preserves {S E A} (R : relation S) (m : exn S E A) : Prop :=
  forall s, R s (fst (m s)).

Create HintDb exn_pres discriminated.

Section Preserves.
Context {S E : Type} (R : relation S) `{!PreOrder R}.

Lemma ret_preserves {A} (a : A) : preserves (E:=E) R (ret a).
Proof. intros s. simpl. reflexivity. Qed.

Lemma throw_preserves {A} (e : E) : preserves (A:=A) R (throw e).
Proof. intros s. simpl. reflexivity. Qed.

Lemma gets_preserves {A} (f : S -> A) : preserves (E:=E) R (gets f).
Proof. intros s. simpl. reflexivity. Qed.

Lemma lift_preserves {A} (o : outcome E A) : preserves R (lift o).
Proof. intros s. simpl. reflexivity. Qed.

Lemma modify_preserves (f : S -> S) :
  (forall s, R s (f s)) -> preserves (E:=E) R (modify f).
Proof. intros Hf s. apply Hf. Qed.

Lemma bind_preserves {A B} (m : exn S E A) (k : A -> exn S E B) :
  preserves R m -> (forall a, preserves R (k a)) -> preserves R (bind m k).
Proof.
  intros Hm Hk s. unfold bind. specialize (Hm s).
  destruct (m s) as [s' [a|e]]; simpl in *; [|done].
  etrans; [exact Hm | apply Hk].
Qed.

Lemma try_catch_preserves {A} (m : exn S E A) (h : E -> exn S E A) :
  preserves R m -> (forall e, preserves R (h e)) -> preserves R (try_catch m h).
Proof.
  intros Hm Hh s. unfold try_catch. specialize (Hm s).
  destruct (m s) as [s' [a|e]]; simpl in *; [done|].
  etrans; [exact Hm | apply Hh].
Qed.

Lemma if_preserves {A} (b : bool) (m1 m2 : exn S E A) :
  preserves R m1 -> preserves R m2 -> preserves R (if b then m1 else m2).
Proof. by destruct b. Qed.
End Preserves.

#[export] Hint Resolve ret_preserves throw_preserves gets_preserves
  lift_preserves bind_preserves try_catch_preserves if_preserves : exn_pres.

(** [papply lem] applies a preservation lemma and closes the [PreOrder]
    instance it asks for, which [apply] cannot infer before unifying the
    relation with the goal. *)
Tactic Notation "papply" uconstr(lem) := apply lem; try typeclasses eauto.

(** [preserves_auto] discharges a [preserves] goal by the combinators above,
    leaving to [exn_pres] the primitive writes of the component. *)
Ltac preserves_auto :=
  repeat first
    [ papply bind_preserves; [|intros ?]
    | papply try_catch_preserves; [|intros ?]
    | papply if_preserves
    | papply ret_preserves
    | papply throw_preserves
    | papply gets_preserves
    | papply lift_preserves
    | solve [eauto with exn_pres] ].

(** ** Computations that see the state only up to an equivalence

    [respects Q m]: run from two states related by [Q], [m] has the same
    outcome and ends in related states.  With [Q] "same cursor and
    messages", this is the non-interference of the collection and the log
    with the tracker's control flow. *)
Definition respects {S E A} (Q : relation S) (m : exn S E A) : Prop :=
  forall s1 s2, Q s1 s2 -> snd (m s1) = snd (m s2) /\ Q (fst (m s1)) (fst (m s2)).

Section Respects.
Context {S E : Type} (Q : relation S).

Lemma ret_respects {A} (a : A) : respects (E:=E) Q (ret a).
Proof. by intros s1 s2 H. Qed.

Lemma throw_respects {A} (e : E) : respects (A:=A) Q (throw e).
Proof. by intros s1 s2 H. Qed.

Lemma lift_respects {A} (o : outcome E A) : respects Q (lift o).
Proof. by intros s1 s2 H. Qed.

Lemma gets_respects {A} (f : S -> A) :
  (forall s1 s2, Q s1 s2 -> f s1 = f s2) -> respects (E:=E) Q (gets f).
Proof. intros Hf s1 s2 H. simpl. by rewrite (Hf s1 s2 H). Qed.

Lemma modify_respects (f : S -> S) :
  (forall s1 s2, Q s1 s2 -> Q (f s1) (f s2)) -> respects (E:=E) Q (modify f).
Proof. intros Hf s1 s2 H. split; [done|]. by apply Hf. Qed.

Lemma bind_respects {A B} (m : exn S E A) (k : A -> exn S E B) :
  respects Q m -> (forall a, respects Q (k a)) -> respects Q (bind m k).
Proof.
  intros Hm Hk s1 s2 H. unfold bind. destruct (Hm s1 s2 H) as [Ho Hq].
  destruct (m s1) as [s1' o], (m s2) as [s2' o']; simpl in *; subst o'.
  destruct o as [a|e]; [by apply Hk | done].
Qed.

Lemma try_catch_respects {A} (m : exn S E A) (h : E -> exn S E A) :
  respects Q m -> (forall e, respects Q (h e)) -> respects Q (try_catch m h).
Proof.
  intros Hm Hh s1 s2 H. unfold try_catch. destruct (Hm s1 s2 H) as [Ho Hq].
  destruct (m s1) as [s1' o], (m s2) as [s2' o']; simpl in *; subst o'.
  destruct o as [a|e]; [done | by apply Hh].
Qed.

Lemma if_respects {A} (b : bool) (m1 m2 : exn S E A) :
  respects Q m1 -> respects Q m2 -> respects Q (if b then m1 else m2).
Proof. by destruct b. Qed.
End Respects.

Create HintDb exn_resp discriminated.
#[export] Hint Resolve ret_respects throw_respects lift_respects : exn_resp.

(** [respects_auto] splits a [respects] goal along the program's structure,
    leaving to [exn_resp] the primitive reads and writes of the component. *)
Ltac respects_auto :=
  repeat first
    [ apply bind_respects; [|intros ?]
    | apply try_catch_respects; [|intros ?]
    | apply if_respects
    | solve [eauto with exn_resp] ].

(** ** The exceptions a computation can throw

    [throws_only P m]: every exception [m] lets escape satisfies [P]; what
    a [try_catch] catches does not escape. *)
Definition throws_only {S E A} (P : E -> Prop) (m : exn S E A) : Prop :=
  forall s, match snd (m s) with Throw e => P e | Ok _ => True end.

Section Throws.
Context {S E : Type} (P : E -> Prop).

Lemma ret_throws {A} (a : A) : throws_only (S:=S) P (ret a).
Proof. by intros s. Qed.

Lemma gets_throws {A} (f : S -> A) : throws_only (E:=E) P (gets f).
Proof. by intros s. Qed.

Lemma modify_throws (f : S -> S) : throws_only (E:=E) P (modify f).
Proof. by intros s. Qed.

Lemma lift_throws {A} (o : outcome E A) :
  (forall e, o = Throw e -> P e) -> throws_only (S:=S) P (lift o).
Proof. intros H s. simpl. destruct o; [done|by apply H]. Qed.

Lemma bind_throws {A B} (m : exn S E A) (k : A -> exn S E B) :
  throws_only P m -> (forall a, throws_only P (k a)) -> throws_only P (bind m k).
Proof.
  intros Hm Hk s. specialize (Hm s). unfold bind.
  destruct (m s) as [s' [a|e]]; simpl in *; [apply Hk|done].
Qed.

Lemma try_catch_throws {A} (m : exn S E A) (h : E -> exn S E A) :
  (forall e, throws_only P (h e)) -> throws_only P (try_catch m h).
Proof.
  intros Hh s. unfold try_catch. destruct (m s) as [s' [a|e]]; [done|apply Hh].
Qed.

Lemma if_throws {A} (b : bool) (m1 m2 : exn S E A) :
  throws_only P m1 -> throws_only P m2 -> throws_only P (if b then m1 else m2).
Proof. by destruct b. Qed.
End Throws.

Create HintDb exn_throws discriminated.
#[export] Hint Resolve ret_throws gets_throws modify_throws : exn_throws.

(** [throws_auto] splits a [throws_only] goal along the program, leaving
    the lifted outcomes and the component's own lemmas to [exn_throws]. *)
Ltac throws_auto :=
  repeat first
    [ apply bind_throws; [|intros ?]
    | apply try_catch_throws; intros ?
    | apply if_throws
    | solve [eauto with exn_throws] ].

(** ** Division by positive constants

    A quotient and a remainder by a positive constant, as a new variable
    and a bounded one, so that [lia] reasons about them linearly. *)
Lemma divmod_spec (a b : Z) :
  (0 < b)%Z -> exists q r, (a = b * q + r /\ 0 <= r < b /\ a / b = q /\ a mod b = r)%Z.
Proof.
  intros Hb. exists (a / b)%Z, (a mod b)%Z.
  split_and!; [apply Z.div_mod; lia | apply Z.mod_pos_bound; lia..|done|done].
Qed.

Ltac elim_divmod a b :=
  let q := fresh "q" in let r := fresh "r" in
  let Hq := fresh "Hq" in let Hr := fresh "Hr" in
  destruct (divmod_spec a b ltac:(lia)) as (q & r & ? & ? & Hq & Hr);
  rewrite ?Hq, ?Hr in *; rewrite ?Hq, ?Hr; clear Hq Hr.

(** [elim_divs] replaces every [a / b] and [a mod b] of the goal and the
    hypotheses by a quotient and a remainder. *)
Ltac elim_divs :=
  repeat match goal with
  | |- context [(?a / ?b)%Z] => elim_divmod a b
  | |- context [(?a mod ?b)%Z] => elim_divmod a b
  | H : context [(?a / ?b)%Z] |- _ => elim_divmod a b
  | H : context [(?a mod ?b)%Z] |- _ => elim_divmod a b
  end.

(** ** Finite sequences of transitions *)

Inductive star {A} (R : A -> A -> Prop) : A -> A -> Prop :=
  | star_refl a : star R a a
  | star_step a b c : R a b -> star R b c -> star R a c.

Lemma star_trans {A} (R : A -> A -> Prop) a b c : star R a b -> star R b c -> star R a c.
Proof. induction 1; eauto using star. Qed.

Lemma star_one {A} (R : A -> A -> Prop) a b : R a b -> star R a b.
Proof. eauto using star. Qed.

Lemma star_mono {A} (R1 R2 : A -> A -> Prop) a b :
  (forall x y, R1 x y -> R2 x y) -> star R1 a b -> star R2 a b.
Proof. intros H. induction 1; eauto using star. Qed.

(** A functional relation reaches at most one state from which it cannot
    step. *)
Lemma star_functional_final {A} (R : A -> A -> Prop) (final : A -> Prop) a b c :
  (forall x y z, R x y -> R x z -> y = z) -> (forall x y, final x -> ~ R x y) ->
  star R a b -> final b -> star R a c -> final c -> b = c.
Proof.
  intros Hf Hfin Hab Hb. revert c. induction Hab as [a|a a1 b Ha1 _ IH]; intros c Hac Hc.
  - destruct Hac as [|a a2 c Ha2 _]; [done|]. by destruct (Hfin a a2 Hb).
  - destruct Hac as [|a a2 c Ha2 Hc2]; [by destruct (Hfin a a1 Hc)|].
    rewrite (Hf a a1 a2 Ha1 Ha2) in IH. by apply IH.
Qed.

(** ** Shared lemmas on lists *)

(** [List.filter] keeps exactly the elements satisfying its predicate. *)
Lemma In_filter_iff {A} (p : A -> bool) (l : list A) x :
  In x (List.filter p l) <-> In x l /\ p x = true.
Proof. apply filter_In. Qed.
