(* ===== verification/Chain.v ===== *)
(** * Chain: what the provider returns

    The transactions and blocks of [alchemy.core.getBlockWithTransactions]
    (index.js 87-90) as far as [trackDeposits] reads them, the exceptions a
    tick can meet, the provider as a record of its two calls, and the
    [String.prototype.toLowerCase] used to compare addresses (index.js 94). *)

From Stdlib Require Import ZArith String Ascii.
From stdpp Require Import base list.
From S2P Require Import Prelude.

Open Scope string_scope.

(** ** Exceptions

    The exceptions that reach a [catch] of index.js: a rejected provider
    call, a [TypeError] raised by reading a property of [null] or
    [undefined], a Mongoose validation error, and a rejected database
    write. *)
Inductive js_error : Type :=
  | ProviderError (msg : string)
  | TypeError (msg : string)
  | ValidationError (path : string)
  | MongoError (msg : string).

(** ** Transactions and blocks

    A transaction object of the provider.  [to] is [null] for a contract
    creation; [gasPrice] is a [BigNumber], [undefined] when the provider
    leaves it out; [input] is read by the code (index.js 104) but is not a
    field of every provider's transaction object, so it may be
    [undefined]. *)
Record Transaction : Type := mkTransaction {
  tx_to : option string;
  tx_hash : string;
  tx_gasPrice : option N;
  tx_input : option string
}.

(** [blockDetails]: the block timestamp in seconds and its transactions. *)
Record Block : Type := mkBlock {
  block_timestamp : Z;
  block_transactions : list Transaction
}.

(** ** The provider

    [alchemy.core.getBlockNumber()] and
    [alchemy.core.getBlockWithTransactions(n)] as seen by one tick: the
    first rejects or resolves to the tip, the second rejects, resolves to
    [null] (a block the provider does not have), or resolves to the block. *)
Record Provider : Type := mkProvider {
  getBlockNumber : outcome js_error Z;
  getBlockWithTransactions : Z -> outcome js_error (option Block)
}.

(** [blockDetails.transactions] (index.js 90): reading a property of
    [null] throws. *)
Definition transactions_of (blockDetails : option Block)
  : outcome js_error (Block * list Transaction) :=
  match blockDetails with
  | Some b => Ok (b, block_transactions b)
  | None => Throw (TypeError "Cannot read properties of null (reading 'transactions')")
  end.

(** ** [toLowerCase] on ASCII text

    Addresses are hexadecimal ASCII text, on which JavaScript's
    [toLowerCase] maps exactly the letters [A]-[Z] to [a]-[z]. *)
Definition ascii_toLowerCase (c : ascii) : ascii :=
  let n := nat_of_ascii c in
  if (65 <=? n)%nat && (n <=? 90)%nat then ascii_of_nat (n + 32) else c.

Fixpoint toLowerCase (s : string) : string :=
  match s with
  | EmptyString => EmptyString
  | String c s' => String (ascii_toLowerCase c) (toLowerCase s')
  end.

Lemma ascii_toLowerCase_idem c :
  ascii_toLowerCase (ascii_toLowerCase c) = ascii_toLowerCase c.
Proof. destruct c as [[] [] [] [] [] [] [] []]; reflexivity. Qed.

Lemma toLowerCase_idem s : toLowerCase (toLowerCase s) = toLowerCase s.
Proof. induction s; simpl; [done|]. by rewrite ascii_toLowerCase_idem, IHs. Qed.

Lemma toLowerCase_length s : String.length (toLowerCase s) = String.length s.
Proof. induction s; simpl; congruence. Qed.

Lemma toLowerCase_empty s : toLowerCase s = "" <-> s = "".
Proof. destruct s; simpl; split; congruence. Qed.
