(* ===== verification/Filter.v ===== *)
(** * Filter: the deposit filter of [trackDeposits]

    [transactions.filter((tx) => tx.to && tx.to.toLowerCase() ===
    contractAddress.toLowerCase())] (index.js 93-95) with the contract
    address of index.js 70.  Addresses that differ only in the case of
    their letters are equivalent ([ci_eq]); the filter respects that
    equivalence, keeps exactly the transactions whose recipient is the
    contract, and keeps them in block order. *)

From Stdlib Require Import ZArith String Ascii Morphisms.
From stdpp Require Import base list strings.
From S2P Require Import Prelude Chain.

Open Scope string_scope.

(** The Beacon Chain deposit contract, in its mixed-case checksum form. *)
Definition contractAddress : string :=
  "0x00000000219ab540356cBB839Cbe05303d7705Fa".

(** [(tx) => tx.to && tx.to.toLowerCase() === contractAddress.toLowerCase()]:
    [null] and the empty string are falsy, so [&&] answers no for them
    before comparing. *)
Definition is_deposit (tx : Transaction) : bool :=
  match tx_to tx with
  | None => false
  | Some to =>
      if String.eqb to "" then false
      else String.eqb (toLowerCase to) (toLowerCase contractAddress)
  end.

Definition filter_deposits (transactions : list Transaction) : list Transaction :=
  List.filter is_deposit transactions.

(** ** Case-insensitive equality of addresses *)

Definition ci_eq (a b : string) : Prop := toLowerCase a = toLowerCase b.

#[export] Instance ci_eq_equiv : Equivalence ci_eq.
Proof.
  split; unfold ci_eq; [done | by intros ?? -> | by intros ??? -> ->].
Qed.

#[export] Instance ci_eq_dec : RelDecision ci_eq.
Proof. intros a b. unfold ci_eq. apply _. Defined.

(** Two transactions whose recipients are case-insensitively equal. *)
Definition same_recipient (t1 t2 : Transaction) : Prop :=
  match tx_to t1, tx_to t2 with
  | None, None => True
  | Some a, Some b => ci_eq a b
  | _, _ => False
  end.

(** The exact test: the recipient is present and case-insensitively the
    contract address. *)
Definition to_contract (tx : Transaction) : Prop :=
  exists a, tx_to tx = Some a /\ ci_eq a contractAddress.

Lemma contractAddress_lower :
  toLowerCase contractAddress = "0x00000000219ab540356cbb839cbe05303d7705fa".
Proof. reflexivity. Qed.

(** The falsy-string guard never decides: the empty string is not
    case-insensitively the contract address. *)
Lemma empty_not_contract : ~ ci_eq "" contractAddress.
Proof. unfold ci_eq. rewrite contractAddress_lower. discriminate. Qed.

Lemma is_deposit_spec tx : is_deposit tx = true <-> to_contract tx.
Proof.
  unfold is_deposit, to_contract. destruct (tx_to tx) as [a|].
  - destruct (String.eqb_spec a "") as [->|Hne].
    + split; [discriminate|]. intros (b & [= <-] & Hb). by apply empty_not_contract in Hb.
    + rewrite String.eqb_eq. unfold ci_eq. split; [eauto|]. by intros (b & [= <-] & ?).
  - split; [discriminate|]. by intros (? & ? & _).
Qed.

#[export] Instance is_deposit_proper : Proper (same_recipient ==> eq) is_deposit.
Proof.
  intros t1 t2 H. unfold same_recipient, ci_eq in H. unfold is_deposit.
  destruct (tx_to t1) as [a|], (tx_to t2) as [b|]; try done.
  destruct (String.eqb_spec a ""), (String.eqb_spec b ""); subst; try done.
  - exfalso. apply n, toLowerCase_empty. by rewrite <- H.
  - exfalso. apply n, toLowerCase_empty. by rewrite H.
  - by rewrite H.
Qed.

(** ** The filter *)

(** C6: a transaction of a fetched block is kept iff its recipient is
    present and case-insensitively equal to the contract address. *)
Theorem filter_deposits_correct (transactions : list Transaction) tx :
  In tx (filter_deposits transactions) <-> In tx transactions /\ to_contract tx.
Proof. unfold filter_deposits. by rewrite In_filter_iff, is_deposit_spec. Qed.

(** The filter does not look at anything but the recipient, up to case. *)
#[export] Instance filter_deposits_proper :
  Proper (Forall2 same_recipient ==> Forall2 same_recipient) filter_deposits.
Proof.
  intros l1 l2 H. unfold filter_deposits.
  induction H as [|t1 t2 l1 l2 Ht _ IH]; simpl; [done|].
  rewrite (is_deposit_proper t1 t2 Ht). destruct (is_deposit t2); auto.
Qed.
