(* ===== verification/JsDate.v ===== *)
(** * JsDate: the JavaScript [Date] values of index.js

    [new Date(blockDetails.timestamp * 1000)] (index.js 101 and 110-111)
    builds a time value in milliseconds since the epoch, clipped by the
    ECMAScript TimeClip to at most 8.64e15 ms either side of it (outside
    that range the date is [Invalid Date]).  Its template-literal rendering
    is [Date.prototype.toString], modelled here for a process whose local
    time zone is UTC (V8's format, e.g.
    ["Thu Jan 01 1970 00:00:00 GMT+0000 (Coordinated Universal Time)"]).
    The calendar conversion is the proleptic Gregorian one of the
    ECMAScript specification, computed by the era/day-of-era formulas. *)

From Stdlib Require Import ZArith String Ascii DecimalString DecimalZ Lia.
From stdpp Require Import base list.
From S2P Require Import Prelude.

Open Scope string_scope.
Open Scope Z_scope.

(** A [Date]: a time value, or the invalid date whose value is [NaN]. *)
Inductive js_date : Type :=
  | DateValue (ms : Z)
  | InvalidDate.

Definition maxTime : Z := 8640000000000000.

(** [new Date(t)] for an integral number [t] (TimeClip). *)
Definition new_Date (t : Z) : js_date :=
  if Z.abs t <=? maxTime then DateValue t else InvalidDate.

Definition msPerDay : Z := 86400000.

(** ** Calendar fields *)

(** Day number and time within the day: [Day(t)] and [TimeWithinDay(t)]
    are the floor quotient and the non-negative remainder. *)
Definition Day (t : Z) : Z := t / msPerDay.
Definition TimeWithinDay (t : Z) : Z := t mod msPerDay.

(** [WeekDay(t)]: day 0 (1970-01-01) was a Thursday (4). *)
Definition WeekDay (t : Z) : Z := (Day t + 4) mod 7.

(** Year, month (1-12) and day of month (1-31) of a day number, through
    the 400-year era of 146097 days that starts on 0000-03-01. *)
Definition day_of_era (z : Z) : Z := (z + 719468) mod 146097.
Definition era_of (z : Z) : Z := (z + 719468) / 146097.
Definition year_of_era (doe : Z) : Z :=
  (doe - doe / 1460 + doe / 36524 - doe / 146096) / 365.
Definition day_of_year (doe : Z) : Z :=
  let yoe := year_of_era doe in doe - (365 * yoe + yoe / 4 - yoe / 100).
Definition month_index (doy : Z) : Z := (5 * doy + 2) / 153.

Definition civil_from_days (z : Z) : Z * Z * Z :=
  let doe := day_of_era z in
  let doy := day_of_year doe in
  let mp := month_index doy in
  let d := doy - (153 * mp + 2) / 5 + 1 in
  let m := if mp <? 10 then mp + 3 else mp - 9 in
  let y := year_of_era doe + era_of z * 400 in
  (if m <=? 2 then y + 1 else y, m, d).

(** The inverse conversion: the proleptic Gregorian day number of year
    [y], month [m] (1 to 12) and day [d], by the same era formulas read
    backwards; a day past the end of its month counts on into the next
    month.  [civil_ok_spec] shows that it inverts [civil_from_days]; it is
    not a transcription of the ECMAScript [MakeDay] algorithm. *)
Definition days_from_civil (y m d : Z) : Z :=
  let y' := if m <=? 2 then y - 1 else y in
  let era := y' / 400 in
  let yoe := y' - era * 400 in
  let mp := if 2 <? m then m - 3 else m + 9 in
  let doy := (153 * mp + 2) / 5 + d - 1 in
  let doe := yoe * 365 + yoe / 4 - yoe / 100 + doy in
  era * 146097 + doe - 719468.

(** ** Rendering *)

Definition decimal (n : Z) : string := NilZero.string_of_int (Z.to_int n).

Fixpoint pad_zeros (k : nat) (s : string) : string :=
  match k with
  | O => s
  | S k' => if (String.length s <? k)%nat then pad_zeros k' ("0" ++ s) else s
  end.

(** [ToZeroPaddedDecimalString(n, k)] for [n >= 0]. *)
Definition padded (n : Z) (k : nat) : string := pad_zeros k (decimal n).

Definition day_names : list string :=
  ["Sun"; "Mon"; "Tue"; "Wed"; "Thu"; "Fri"; "Sat"].
Definition month_names : list string :=
  ["Jan"; "Feb"; "Mar"; "Apr"; "May"; "Jun";
   "Jul"; "Aug"; "Sep"; "Oct"; "Nov"; "Dec"].

Definition name_at (names : list string) (i : Z) : string :=
  default "" (names !! Z.to_nat i).

(** [DateString(tv)]: ["Www Mmm DD YYYY"], the year with a sign when
    negative. *)
Definition DateString (t : Z) : string :=
  let '(y, m, d) := civil_from_days (Day t) in
  name_at day_names (WeekDay t) ++ " " ++ name_at month_names (m - 1) ++ " " ++
  padded d 2 ++ " " ++ (if y <? 0 then "-" else "") ++ padded (Z.abs y) 4.

(** [TimeString(tv)]: ["HH:mm:ss GMT"]. *)
Definition TimeString (t : Z) : string :=
  let w := TimeWithinDay t in
  padded (w / 3600000) 2 ++ ":" ++ padded ((w / 60000) mod 60) 2 ++ ":" ++
  padded ((w / 1000) mod 60) 2 ++ " GMT".

Definition TimeZoneString : string := "+0000 (Coordinated Universal Time)".

(** [Date.prototype.toString]. *)
Definition date_toString (d : js_date) : string :=
  match d with
  | InvalidDate => "Invalid Date"
  | DateValue t => DateString t ++ " " ++ TimeString t ++ TimeZoneString
  end.

Example date_toString_epoch :
  date_toString (new_Date 0) =
  "Thu Jan 01 1970 00:00:00 GMT+0000 (Coordinated Universal Time)".
Proof. reflexivity. Qed.

Example date_toString_merge :
  date_toString (new_Date (1663224179 * 1000)) =
  "Thu Sep 15 2022 06:42:59 GMT+0000 (Coordinated Universal Time)".
Proof. reflexivity. Qed.

Example date_toString_before_epoch :
  date_toString (new_Date (-1)) =
  "Wed Dec 31 1969 23:59:59 GMT+0000 (Coordinated Universal Time)".
Proof. reflexivity. Qed.

(** ** The calendar conversion *)

(** The day number splits into an era and a day of that era. *)
Lemma era_split z :
  z + 719468 = 146097 * era_of z + day_of_era z /\ 0 <= day_of_era z < 146097.
Proof.
  unfold era_of, day_of_era.
  pose proof (Z.div_mod (z + 719468) 146097 ltac:(lia)).
  pose proof (Z.mod_pos_bound (z + 719468) 146097 ltac:(lia)). lia.
Qed.

(** Within an era the year of the era and the day of the year from
    March 1st are in range. *)
Lemma year_day_bounds doe :
  0 <= doe < 146097 -> 0 <= year_of_era doe <= 399 /\ 0 <= day_of_year doe <= 365.
Proof. intros H. unfold day_of_year, year_of_era. cbv zeta. elim_divs. lia. Qed.

(** The month index from March and the day of the month are in range. *)
Lemma month_day_bounds doy :
  0 <= doy <= 365 ->
  0 <= month_index doy <= 11 /\ 0 <= doy - (153 * month_index doy + 2) / 5 <= 30.
Proof. intros H. unfold month_index. elim_divs. lia. Qed.

(** Within an era: the fields are in range and the year and the day of
    the year give back the day of the era. *)
Lemma civil_arith doe :
  0 <= doe < 146097 ->
  let yoe := year_of_era doe in
  let doy := day_of_year doe in
  let mp := month_index doy in
  0 <= yoe <= 399 /\ 0 <= doy <= 365 /\ 0 <= mp <= 11 /\
  0 <= doy - (153 * mp + 2) / 5 <= 30 /\
  yoe * 365 + yoe / 4 - yoe / 100 + doy = doe.
Proof.
  intros H. destruct (year_day_bounds doe H) as [Hy Hd].
  destruct (month_day_bounds _ Hd).
  assert (year_of_era doe * 365 + year_of_era doe / 4 - year_of_era doe / 100 +
          day_of_year doe = doe) by (unfold day_of_year; cbv zeta; lia).
  cbv zeta. destruct_and!. split_and!; lia.
Qed.

Lemma civil_ok_spec z :
  let '(y, m, d) := civil_from_days z in
  days_from_civil y m d = z /\ 1 <= m <= 12 /\ 1 <= d <= 31.
Proof.
  unfold civil_from_days. destruct (era_split z) as [Hz Hdoe].
  pose proof (civil_arith _ Hdoe) as Ha. cbv zeta in Ha.
  set (doe := day_of_era z) in *. set (era := era_of z) in *.
  set (yoe := year_of_era doe) in *. set (doy := day_of_year doe) in *.
  set (mp := month_index doy) in *. set (d := doy - (153 * mp + 2) / 5 + 1).
  destruct Ha as (Hy & Hd & Hm & Hdm & Hback).
  unfold days_from_civil.
  destruct (Z.ltb_spec mp 10).
  - rewrite (proj2 (Z.leb_gt (mp + 3) 2)), (proj2 (Z.ltb_lt 2 (mp + 3))) by lia.
    rewrite Z.div_add, (Z.div_small yoe 400), Z.add_0_l by lia.
    replace (mp + 3 - 3) with mp by lia.
    replace (yoe + era * 400 - era * 400) with yoe by lia. unfold d. lia.
  - rewrite (proj2 (Z.leb_le (mp - 9) 2)), (proj2 (Z.ltb_ge 2 (mp - 9))) by lia.
    replace (yoe + era * 400 + 1 - 1) with (yoe + era * 400) by lia.
    rewrite Z.div_add, (Z.div_small yoe 400), Z.add_0_l by lia.
    replace (mp - 9 + 9) with mp by lia.
    replace (yoe + era * 400 - era * 400) with yoe by lia. unfold d. lia.
Qed.

