(* ===== verification/IsoDate.v ===== *)
(** * IsoDate: dates through the JSON of the GET route

    [res.json(deposits)] (index.js 138) serialises each document's
    [blockTimestamp] with [Date.prototype.toJSON], that is
    [toISOString()] (["YYYY-MM-DDTHH:mm:ss.sssZ"], the year written with a
    sign and six digits outside 0..9999) or [null] for an invalid date.
    The front end rebuilds it with [new Date(deposit.blockTimestamp)]
    (App.js 43), which parses that format (the ECMAScript Date Time String
    Format, as V8 reads it: month 1-12, day 1-31, hour up to 24:00).

    The round trip [parse_iso (toISOString t) = DateValue t] holds for
    every time value [new Date] can hold (|t| <= 8.64e15 ms). *)

From Stdlib Require Import ZArith String Ascii Lia.
From stdpp Require Import base list.
From S2P Require Import Prelude JsDate.

Open Scope string_scope.
Open Scope Z_scope.

(** ** Printing *)

Definition digit_char (v : Z) : ascii := ascii_of_nat (48 + Z.to_nat v).

(** [ToZeroPaddedDecimalString(n, k)] for [0 <= n < 10^k]: the [k] last
    decimal digits of [n], most significant first. *)
Fixpoint digits (k : nat) (n : Z) : string :=
  match k with
  | O => ""
  | S k' => String (digit_char ((n / 10 ^ Z.of_nat k') mod 10)) (digits k' n)
  end.

(** The year field: four digits, or a sign and six digits. *)
Definition year_text (y : Z) : string :=
  if (0 <=? y) && (y <=? 9999) then digits 4 y
  else String (if y <? 0 then "-" else "+") (digits 6 (Z.abs y)).

(** [Date.prototype.toISOString] of a time value. *)
Definition toISOString (t : Z) : string :=
  let '(y, m, d) := civil_from_days (Day t) in
  let w := TimeWithinDay t in
  year_text y ++ "-" ++ digits 2 m ++ "-" ++ digits 2 d ++ "T" ++
  digits 2 (w / 3600000) ++ ":" ++ digits 2 ((w / 60000) mod 60) ++ ":" ++
  digits 2 ((w / 1000) mod 60) ++ "." ++ digits 3 (w mod 1000) ++ "Z".

(** [Date.prototype.toJSON]: [None] is [null]. *)
Definition toJSON (d : js_date) : option string :=
  match d with
  | DateValue t => Some (toISOString t)
  | InvalidDate => None
  end.

(** ** Parsing *)

Definition digit_value (c : ascii) : option Z :=
  let v := Z.of_nat (nat_of_ascii c) - 48 in
  if (0 <=? v) && (v <=? 9) then Some v else None.

(** Read [k] decimal digits, accumulating on [acc]. *)
Fixpoint read_digits (k : nat) (acc : Z) (s : string) : option (Z * string) :=
  match k with
  | O => Some (acc, s)
  | S k' =>
      match s with
      | String c s' => digit_value c ≫= fun v => read_digits k' (acc * 10 + v) s'
      | EmptyString => None
      end
  end.

(** Consume the character [c]. *)
Definition expect (c : ascii) (s : string) : option string :=
  match s with
  | String c' s' => if Ascii.eqb c c' then Some s' else None
  | EmptyString => None
  end.

(** The year: [+YYYYYY], [-YYYYYY] (not [-000000]) or [YYYY]. *)
Definition read_year (s : string) : option (Z * string) :=
  match s with
  | String c s' =>
      if Ascii.eqb c "+" then read_digits 6 0 s'
      else if Ascii.eqb c "-" then
        read_digits 6 0 s' ≫= fun '(v, r) => if v =? 0 then None else Some (- v, r)
      else read_digits 4 0 s
  | EmptyString => None
  end.

Definition in_range (lo x hi : Z) : bool := (lo <=? x) && (x <=? hi).

(** [new Date(s)] for a string of the ISO format; any other string is,
    here, an invalid date (the back end never sends one). *)
Definition parse_iso (s : string) : js_date :=
  let r :=
    read_year s ≫= fun '(y, s) => expect "-" s ≫= fun s =>
    read_digits 2 0 s ≫= fun '(mo, s) => expect "-" s ≫= fun s =>
    read_digits 2 0 s ≫= fun '(d, s) => expect "T" s ≫= fun s =>
    read_digits 2 0 s ≫= fun '(h, s) => expect ":" s ≫= fun s =>
    read_digits 2 0 s ≫= fun '(mi, s) => expect ":" s ≫= fun s =>
    read_digits 2 0 s ≫= fun '(se, s) => expect "." s ≫= fun s =>
    read_digits 3 0 s ≫= fun '(ms, s) => expect "Z" s ≫= fun s =>
    if String.eqb s "" && in_range 1 mo 12 && in_range 1 d 31 && in_range 0 h 24 &&
       in_range 0 mi 59 && in_range 0 se 59 &&
       (negb (h =? 24) || ((mi =? 0) && (se =? 0) && (ms =? 0)))
    then Some (new_Date (days_from_civil y mo d * msPerDay +
                         ((h * 60 + mi) * 60 + se) * 1000 + ms))
    else None in
  match r with Some v => v | None => InvalidDate end.

Example toISOString_merge : toISOString (1663224179 * 1000) = "2022-09-15T06:42:59.000Z".
Proof. reflexivity. Qed.

Example toISOString_before_epoch : toISOString (-1) = "1969-12-31T23:59:59.999Z".
Proof. reflexivity. Qed.

Example toISOString_far_past : toISOString (- maxTime) = "-271821-04-20T00:00:00.000Z".
Proof. reflexivity. Qed.

Example parse_iso_overflow : parse_iso "2021-02-31T00:00:00.000Z" = parse_iso "2021-03-03T00:00:00.000Z".
Proof. reflexivity. Qed.

(** ** The round trip *)

Lemma digit_value_char v : 0 <= v <= 9 -> digit_value (digit_char v) = Some v.
Proof.
  intros Hv. unfold digit_value, digit_char.
  rewrite Ascii.nat_ascii_embedding by lia.
  replace (Z.of_nat (48 + Z.to_nat v) - 48) with v by lia.
  rewrite (proj2 (Z.leb_le 0 v)), (proj2 (Z.leb_le v 9)) by lia. done.
Qed.

(** Reading [k] digits back gives the [k] last digits of the number. *)
Lemma read_digits_app k acc n rest :
  read_digits k acc (digits k n ++ rest) =
  Some (acc * 10 ^ Z.of_nat k + n mod 10 ^ Z.of_nat k, rest).
Proof.
  revert acc. induction k as [|k IH]; intros acc.
  - simpl. rewrite Z.mod_1_r. f_equal. f_equal. lia.
  - cbn [digits read_digits append]. rewrite digit_value_char by (pose proof (Z.mod_pos_bound (n / 10 ^ Z.of_nat k) 10); lia).
    cbn [mbind option_bind]. rewrite IH. f_equal. f_equal.
    rewrite Nat2Z.inj_succ, Z.pow_succ_r, (Z.mul_comm 10 (10 ^ Z.of_nat k)) by lia.
    rewrite Z.rem_mul_r by (try apply Z.pow_nonzero; lia). ring.
Qed.

Lemma read_digits_small k n rest :
  0 <= n < 10 ^ Z.of_nat k -> read_digits k 0 (digits k n ++ rest) = Some (n, rest).
Proof. intros Hn. rewrite read_digits_app, Z.mod_small by done. done. Qed.

Lemma digit_char_not_sign v :
  0 <= v <= 9 -> Ascii.eqb (digit_char v) "+" = false /\ Ascii.eqb (digit_char v) "-" = false.
Proof.
  intros Hv. pose proof (digit_value_char v Hv) as H.
  split; apply Bool.not_true_iff_false; intros E%Ascii.eqb_eq; by rewrite E in H.
Qed.

Lemma read_year_text y rest :
  -1000000 < y < 1000000 -> read_year (year_text y ++ rest) = Some (y, rest).
Proof.
  intros Hy. unfold year_text.
  destruct (Z.leb_spec 0 y), (Z.leb_spec y 9999); simpl andb; cbv iota.
  - destruct (digit_char_not_sign ((y / 10 ^ Z.of_nat 3) mod 10)) as [H1 H2].
    { pose proof (Z.mod_pos_bound (y / 10 ^ Z.of_nat 3) 10). lia. }
    unfold read_year. cbn [digits append]. rewrite H1, H2.
    rewrite <- (read_digits_small 4 y rest) by (simpl; lia). done.
  - rewrite (proj2 (Z.ltb_ge y 0)) by lia. cbn [read_year append].
    rewrite read_digits_small, Z.abs_eq by (simpl; lia). done.
  - rewrite (proj2 (Z.ltb_lt y 0)) by lia. cbn [read_year append].
    rewrite read_digits_small by (simpl; lia). cbn [mbind option_bind].
    rewrite (proj2 (Z.eqb_neq (Z.abs y) 0)) by lia. f_equal. f_equal. lia.
  - lia.
Qed.

Lemma expect_cons c s : expect c (String c s) = Some s.
Proof. unfold expect. by rewrite Ascii.eqb_refl. Qed.

Lemma in_range_true lo x hi : lo <= x <= hi -> in_range lo x hi = true.
Proof. intros H. unfold in_range. apply andb_true_intro. split; apply Z.leb_le; lia. Qed.

(** The years of the time values a [Date] can hold have six digits. *)
Lemma civil_year_bounds z :
  -100000000 <= z <= 100000000 ->
  let '(y, m, d) := civil_from_days z in -1000000 < y < 1000000.
Proof.
  intros Hz. unfold civil_from_days. destruct (era_split z) as [He Hd].
  destruct (year_day_bounds _ Hd) as [Hy _]. cbv zeta.
  destruct (month_index _ <? 10), (_ <=? 2); lia.
Qed.

(** The four time fields of a time within the day, and their sum. *)
Lemma time_fields w :
  0 <= w < msPerDay ->
  0 <= w / 3600000 <= 23 /\ 0 <= (w / 60000) mod 60 <= 59 /\ 0 <= (w / 1000) mod 60 <= 59 /\
  0 <= w mod 1000 <= 999 /\
  ((w / 3600000 * 60 + (w / 60000) mod 60) * 60 + (w / 1000) mod 60) * 1000 + w mod 1000 = w.
Proof. unfold msPerDay. intros Hw. elim_divs. lia. Qed.

Lemma day_split t : Day t * msPerDay + TimeWithinDay t = t /\ 0 <= TimeWithinDay t < msPerDay.
Proof.
  unfold Day, TimeWithinDay. split; [rewrite Z.mul_comm; symmetry; by apply Z.div_mod|].
  by apply Z.mod_pos_bound.
Qed.

Lemma parse_toISOString t : Z.abs t <= maxTime -> parse_iso (toISOString t) = DateValue t.
Proof.
  intros Ht. destruct (day_split t) as [Ht' Hw].
  assert (Hz : -100000000 <= Day t <= 100000000) by (unfold msPerDay, maxTime in *; lia).
  pose proof (civil_ok_spec (Day t)) as Hc. pose proof (civil_year_bounds _ Hz) as Hy.
  unfold toISOString. destruct (civil_from_days (Day t)) as [[y m] d]. destruct Hc as (Hback & Hm & Hd).
  destruct (time_fields _ Hw) as (Hh & Hmi & Hse & Hms & Hsum).
  set (w := TimeWithinDay t) in *. set (h := w / 3600000) in *.
  set (mi := (w / 60000) mod 60) in *. set (se := (w / 1000) mod 60) in *. set (ms := w mod 1000) in *.
  unfold parse_iso. rewrite read_year_text by done.
  repeat first [ rewrite expect_cons | rewrite read_digits_small by (cbn; lia)
               | progress cbn [mbind option_bind append] ].
  rewrite !in_range_true, (proj2 (Z.eqb_neq h 24)) by lia. cbn.
  rewrite Hback, <- Z.add_assoc, Hsum, Ht'. unfold new_Date.
  by rewrite (proj2 (Z.leb_le _ _ )).
Qed.

(** A [Date] built by [new Date(t)] holds a time value in range. *)
Lemma new_Date_in_range x t : new_Date x = DateValue t -> Z.abs t <= maxTime.
Proof. unfold new_Date. destruct (Z.leb_spec (Z.abs x) maxTime); by intros [= <-]. Qed.
