(* ===== verification/Deposit.v ===== *)
(** * Deposit: the Mongoose document and the mapping of a transaction

    The [depositSchema] of index.js 34-45 and the object literal of
    [new Deposit({...})] in [trackDeposits] (index.js 99-105).  A schema
    path that is given [undefined] is left out of the document, so every
    field is an [option].  The literal is evaluated before the inner [try]
    of index.js 108: [deposit.gasPrice.toString()] on a transaction without
    [gasPrice] throws a [TypeError] that escapes to the outer [catch]. *)

From Stdlib Require Import ZArith String DecimalString DecimalN Lia.
From stdpp Require Import base list.
From S2P Require Import Prelude Chain JsDate.

Open Scope string_scope.
Open Scope Z_scope.

(** A document of the [deposits] collection. *)
Record Deposit : Type := mkDeposit {
  blockNumber : option Z;
  blockTimestamp : option js_date;
  fee : option string;
  hash : option string;
  pubkey : option string
}.

(** [BigNumber.prototype.toString()]: the decimal digits. *)
Definition bn_toString (n : N) : string := NilZero.string_of_uint (N.to_uint n).

(** The exception of [undefined.toString()]. *)
Definition gasPrice_error : js_error :=
  TypeError "Cannot read properties of undefined (reading 'toString')".

(** [new Deposit({ blockNumber: currentBlock, blockTimestamp: new
    Date(blockDetails.timestamp * 1000), fee: deposit.gasPrice.toString(),
    hash: deposit.hash, pubkey: deposit.input })]. *)
Definition new_deposit (currentBlock : Z) (blockDetails : Block)
    (deposit : Transaction) : outcome js_error Deposit :=
  match tx_gasPrice deposit with
  | None => Throw gasPrice_error
  | Some gasPrice =>
      Ok {| blockNumber := Some currentBlock;
            blockTimestamp := Some (new_Date (block_timestamp blockDetails * 1000));
            fee := Some (bn_toString gasPrice);
            hash := Some (tx_hash deposit);
            pubkey := tx_input deposit |}
  end.

(** Mongoose's validation before a save: a [Date] path holding
    [Invalid Date] fails to cast. *)
Definition validate (d : Deposit) : option js_error :=
  match blockTimestamp d with
  | Some InvalidDate => Some (ValidationError "blockTimestamp")
  | _ => None
  end.

(** ** Facts on the mapping *)

Lemma new_deposit_ok currentBlock blockDetails deposit gasPrice :
  tx_gasPrice deposit = Some gasPrice ->
  new_deposit currentBlock blockDetails deposit =
  Ok {| blockNumber := Some currentBlock;
        blockTimestamp := Some (new_Date (block_timestamp blockDetails * 1000));
        fee := Some (bn_toString gasPrice);
        hash := Some (tx_hash deposit);
        pubkey := tx_input deposit |}.
Proof. unfold new_deposit. by intros ->. Qed.

Lemma new_deposit_throws currentBlock blockDetails deposit :
  tx_gasPrice deposit = None ->
  new_deposit currentBlock blockDetails deposit = Throw gasPrice_error.
Proof. unfold new_deposit. by intros ->. Qed.

(** [BigNumber.toString] text reads back, as a decimal numeral, as the
    number. *)
Lemma bn_toString_roundtrip n :
  option_map N.of_uint (NilZero.uint_of_string (bn_toString n)) = Some n.
Proof.
  unfold bn_toString. rewrite NilZero.usu; simpl.
  - by rewrite DecimalN.Unsigned.of_to.
  - intros E. apply (f_equal N.of_uint) in E as E'.
    rewrite DecimalN.Unsigned.of_to in E'. simpl in E'. subst n. discriminate.
Qed.


(** C18. The document's [blockTimestamp] passes Mongoose's cast exactly
    when the block timestamp is at most 8.64e12 seconds from the epoch
    (TimeClip of [timestamp * 1000]); beyond it the save is refused. *)
Theorem new_deposit_timestamp_valid currentBlock blockDetails deposit d :
  new_deposit currentBlock blockDetails deposit = Ok d ->
  (validate d = None <-> Z.abs (block_timestamp blockDetails) <= 8640000000000).
Proof.
  unfold new_deposit. destruct (tx_gasPrice deposit); [|done]. intros [= <-].
  unfold validate, new_Date, maxTime. simpl.
  destruct (Z.leb_spec (Z.abs (block_timestamp blockDetails * 1000)) 8640000000000000);
    split; intros; try done; lia.
Qed.

Lemma new_deposit_timestamp_valid_witness :
  let blk := mkBlock 1700000000 [] in
  let tx := mkTransaction None "0xaaa" (Some 1%N) None in
  new_deposit 103 blk tx = Ok (mkDeposit (Some 103) (Some (DateValue 1700000000000))
                                 (Some "1") (Some "0xaaa") None) /\
  (validate (mkDeposit (Some 103) (Some (DateValue 1700000000000)) (Some "1") (Some "0xaaa") None) = None
   <-> Z.abs (block_timestamp blk) <= 8640000000000).
Proof.
  simpl. split; [reflexivity|]. by apply (new_deposit_timestamp_valid 103 (mkBlock 1700000000 [])
    (mkTransaction None "0xaaa" (Some 1%N) None)).
Defined.
