(* ===== verification/Store.v ===== *)
(** * Store: the [deposits] collection

    [newDeposit.save()] (index.js 109 and 156) and [Deposit.find()]
    (index.js 137) over the MongoDB collection, as a list of documents in
    insertion order.  The schema declares no unique index, so a save never
    looks at the documents already there: saving a document whose [hash] is
    stored already adds a second one.  Whether the server accepts a write
    (it is reachable, the write is acknowledged) is the oracle [accepts];
    Mongoose's own validation ([validate]) runs first. *)

From Stdlib Require Import ZArith String.
From stdpp Require Import base list strings.
From S2P Require Import Prelude Chain JsDate Deposit.

Open Scope string_scope.

(** [await doc.save()]: validate, then insert. *)
Definition save (accepts : Deposit -> bool) (d : Deposit) (docs : list Deposit)
  : outcome js_error (list Deposit) :=
  match validate d with
  | Some e => Throw e
  | None => if accepts d then Ok (docs ++ [d])%list else Throw (MongoError "write rejected")
  end.

(** [await Deposit.find()]: every document.  With no sort, MongoDB
    returns its natural order, which it does not promise to be insertion
    order; the model fixes that order to insertion order (what a
    collection that is only appended to gives in practice), and the
    theorems about the order of answers rely on that choice. *)
Definition find (docs : list Deposit) : list Deposit := docs.

(** The number of documents carrying a given [hash]. *)
Definition count_hash (h : string) (docs : list Deposit) : nat :=
  length (List.filter (fun d => bool_decide (hash d = Some h)) docs).

(** Whether a save goes through does not depend on the documents stored. *)
Definition save_succeeds (accepts : Deposit -> bool) (d : Deposit) : bool :=
  match validate d with Some _ => false | None => accepts d end.

Lemma save_spec accepts d docs :
  save accepts d docs =
  if save_succeeds accepts d then Ok (docs ++ [d])%list%list
  else Throw (default (MongoError "write rejected") (validate d)).
Proof. unfold save, save_succeeds. by destruct (validate d), (accepts d). Qed.

Lemma count_hash_app h docs1 docs2 :
  count_hash h (docs1 ++ docs2)%list = (count_hash h docs1 + count_hash h docs2)%nat.
Proof. unfold count_hash. by rewrite List.filter_app, length_app. Qed.

