(* ===== verification/Notifier.v ===== *)
(** * Notifier: the Telegram message of a saved deposit

    The template literal of index.js 110-114 and [sendTelegramMessage]
    (index.js 59-62), which appends a signature and hands the text to
    [bot.sendMessage] without awaiting it: the promise is neither awaited
    nor given a [catch], so its failure never reaches [trackDeposits]. *)

From Stdlib Require Import ZArith String Ascii.
From stdpp Require Import base list.
From S2P Require Import Prelude Chain JsDate Deposit.

Open Scope string_scope.

Definition nl : string := String (ascii_of_nat 10) EmptyString.

(** A template-literal substitution of a value that may be [undefined]. *)
Definition show_undefined {A} (show : A -> string) (v : option A) : string :=
  match v with Some a => show a | None => "undefined" end.

(** The message of index.js 110-114.  [${currentBlock}] is the decimal text
    of a block number (an integer far below 1e21, where JavaScript would
    switch to exponent notation). *)
Definition deposit_message (currentBlock : Z) (blockDetails : Block)
    (deposit : Transaction) : string :=
  "New deposit detected!" ++ nl ++
  "Block Number: " ++ decimal currentBlock ++ nl ++
  "Timestamp: " ++ date_toString (new_Date (block_timestamp blockDetails * 1000)) ++ nl ++
  "Transaction Hash: " ++ tx_hash deposit ++ nl ++
  "Gas Fee: " ++ show_undefined bn_toString (tx_gasPrice deposit) ++ nl ++
  "Pubkey: " ++ show_undefined (fun s => s) (tx_input deposit).

(** [messageWithSignature] of index.js 60. *)
Definition with_signature (message : string) : string :=
  message ++ nl ++ nl ++ "- Adithya Kumar Reddy".

(** ** The message as a function of the stored document *)

(** What the message says, read off a document of the collection. *)
Definition doc_message (d : Deposit) : string :=
  "New deposit detected!" ++ nl ++
  "Block Number: " ++ show_undefined decimal (blockNumber d) ++ nl ++
  "Timestamp: " ++ show_undefined date_toString (blockTimestamp d) ++ nl ++
  "Transaction Hash: " ++ show_undefined (fun s => s) (hash d) ++ nl ++
  "Gas Fee: " ++ show_undefined (fun s => s) (fee d) ++ nl ++
  "Pubkey: " ++ show_undefined (fun s => s) (pubkey d).

(** The message sent for a transaction reports exactly the document built
    from it. *)
Lemma deposit_message_doc currentBlock blockDetails deposit d :
  new_deposit currentBlock blockDetails deposit = Ok d ->
  deposit_message currentBlock blockDetails deposit = doc_message d.
Proof.
  unfold new_deposit. destruct (tx_gasPrice deposit) eqn:E; [|done].
  intros [= <-]. unfold deposit_message, doc_message. simpl. by rewrite E.
Qed.
