(* ===== verification/Tracker.v ===== *)
(** * Tracker: [trackDeposits] and the global cursor

    index.js 64-129.  The state a tick reads and writes is [World]: the
    global [lastProcessedBlock] (index.js 65), the [deposits] collection,
    the Telegram messages handed to [bot.sendMessage], and the winston log
    entries.  A tick is one computation of [exn World js_error] written
    statement by statement from the source; the provider's answers and the
    database's acceptance of writes are the section variables [p] and
    [accepts]. *)

From Stdlib Require Import ZArith String Lia.
From stdpp Require Import base list strings sorting.
From S2P Require Import Prelude Chain Filter JsDate Deposit Store Notifier.

Open Scope string_scope.
Open Scope list_scope.
Open Scope Z_scope.
Local Open Scope exn_scope.

(** A winston log entry ([logger.info] / [logger.error]). *)
Inductive log_entry : Type :=
  | LogInfo (msg : string)
  | LogError (msg : string) (e : js_error).

Record World : Type := mkWorld {
  lastProcessedBlock : Z;
  deposits : list Deposit;
  telegram : list string;
  logs : list log_entry
}.

Abbreviation M := (exn World js_error).

(** [lastProcessedBlock = n] *)
Definition set_lastProcessedBlock (n : Z) : M unit :=
  modify (fun w => mkWorld n (deposits w) (telegram w) (logs w)).

(** [logger.info(..)], [logger.error(.., e)] *)
Definition log (e : log_entry) : M unit :=
  modify (fun w => mkWorld (lastProcessedBlock w) (deposits w) (telegram w) (logs w ++ [e])%list).

(** [sendTelegramMessage(message)] (index.js 59-62): the signed text is
    handed to the bot; the returned promise is dropped. *)
Definition sendTelegramMessage (message : string) : M unit :=
  modify (fun w => mkWorld (lastProcessedBlock w) (deposits w)
                     (telegram w ++ [with_signature message])%list (logs w)).

(** [await newDeposit.save()] *)
Definition save_deposit (accepts : Deposit -> bool) (d : Deposit) : M unit :=
  fun w => match save accepts d (deposits w) with
           | Ok docs => (mkWorld (lastProcessedBlock w) docs (telegram w) (logs w), Ok tt)
           | Throw e => (w, Throw e)
           end.

Section Tick.
Variable p : Provider.
Variable accepts : Deposit -> bool.

(** The body of [for (const deposit of deposits)] (index.js 99-120):
    build the document (outside the inner [try]), then save, log and
    notify, a failed save being logged and skipped. *)
Definition process_deposit (currentBlock : Z) (blockDetails : Block)
    (deposit : Transaction) : M unit :=
  newDeposit <- lift (new_deposit currentBlock blockDetails deposit) ;;
  try_catch
    (save_deposit accepts newDeposit ;;
     let message := deposit_message currentBlock blockDetails deposit in
     log (LogInfo ("New deposit saved: " ++ tx_hash deposit)%string) ;;
     sendTelegramMessage message)
    (fun saveError => log (LogError "Error saving deposit to database:" saveError)).

Fixpoint process_deposits (currentBlock : Z) (blockDetails : Block)
    (ds : list Transaction) : M unit :=
  match ds with
  | [] => ret tt
  | deposit :: ds' =>
      process_deposit currentBlock blockDetails deposit ;;
      process_deposits currentBlock blockDetails ds'
  end.

(** One iteration of the block loop (index.js 86-124). *)
Definition process_block (currentBlock : Z) : M unit :=
  blockDetails <- lift (getBlockWithTransactions p currentBlock) ;;
  bt <- lift (transactions_of blockDetails) ;;
  process_deposits currentBlock (fst bt) (filter_deposits (snd bt)) ;;
  set_lastProcessedBlock currentBlock.

(** [for (let currentBlock = ..; currentBlock <= latestBlockNumber;
    currentBlock++)] (index.js 81-85).  The guard is the source's; the
    fuel is the number of iterations, which [trackDeposits] computes, and
    [block_loop_fuel] shows that more fuel changes nothing. *)
Fixpoint block_loop (fuel : nat) (currentBlock latestBlockNumber : Z) : M unit :=
  match fuel with
  | O => ret tt
  | S fuel' =>
      if currentBlock <=? latestBlockNumber then
        process_block currentBlock ;;
        block_loop fuel' (currentBlock + 1) latestBlockNumber
      else ret tt
  end.

(** [trackDeposits] (index.js 68-129). *)
Definition trackDeposits : M unit :=
  try_catch
    (latestBlockNumber <- lift (getBlockNumber p) ;;
     last <- gets lastProcessedBlock ;;
     (if last =? 0 then set_lastProcessedBlock (latestBlockNumber - 1) else ret tt) ;;
     start <- gets lastProcessedBlock ;;
     block_loop (Z.to_nat (latestBlockNumber - start)) (start + 1) latestBlockNumber)
    (fun error => log (LogError "Error tracking deposits:" error)).
End Tick.

(** ** Concrete worlds and providers for the scenarios of the spec *)

Definition init_world : World := mkWorld 0 [] [] [].

Definition world_at (cursor : Z) : World := mkWorld cursor [] [] [].

(** A provider whose tip is [tip] and whose blocks are given by [blocks]. *)
Definition provider_of (tip : Z) (blocks : Z -> outcome js_error (option Block)) : Provider :=
  mkProvider (Ok tip) blocks.

Definition empty_block : Block := mkBlock 1700000000 [].

Definition deposit_tx (h : string) (gasPrice : N) : Transaction :=
  mkTransaction (Some contractAddress) h (Some gasPrice) (Some "0x22895118").

Definition other_tx : Transaction :=
  mkTransaction (Some "0x1111111111111111111111111111111111111111") "0xbbb" (Some 1%N) None.

Definition accept_all : Deposit -> bool := fun _ => true.

(** Scenario 1: tip 100, cursor unset, no deposits. *)
Example scenario_1 :
  let w := fst (trackDeposits (provider_of 100 (fun _ => Ok (Some empty_block))) accept_all init_world) in
  lastProcessedBlock w = 100 /\ deposits w = [].
Proof. vm_compute. split; reflexivity. Qed.

Definition blocks_2 (b : Z) : outcome js_error (option Block) :=
  if b =? 103 then Ok (Some (mkBlock 1700000000 [other_tx; deposit_tx "0xaaa" 20000000000]))
  else Ok (Some empty_block).

(** Scenario 2: tip 105, cursor 100, one deposit in block 103. *)
Example scenario_2 :
  let w := fst (trackDeposits (provider_of 105 blocks_2) accept_all (world_at 100)) in
  lastProcessedBlock w = 105 /\
  map blockNumber (deposits w) = [Some 103] /\
  map hash (deposits w) = [Some "0xaaa"] /\
  map fee (deposits w) = [Some "20000000000"] /\
  length (telegram w) = 1%nat.
Proof. vm_compute. repeat split; reflexivity. Qed.

(** Scenario 3: as 2, but fetching block 104 fails. *)
Example scenario_3 :
  let blocks b := if b =? 104 then Throw (ProviderError "timeout") else blocks_2 b in
  let w := fst (trackDeposits (provider_of 105 blocks) accept_all (world_at 100)) in
  lastProcessedBlock w = 103 /\ map hash (deposits w) = [Some "0xaaa"] /\
  logs w = [LogInfo "New deposit saved: 0xaaa";
            LogError "Error tracking deposits:" (ProviderError "timeout")].
Proof. vm_compute. repeat split; reflexivity. Qed.

(** Scenario 4: two deposits in block 106, the second save fails. *)
Example scenario_4 :
  let blocks b := if b =? 106
                  then Ok (Some (mkBlock 1700000000 [deposit_tx "0xaaa" 1; deposit_tx "0xccc" 2]))
                  else Ok (Some empty_block) in
  let accepts d := bool_decide (hash d = Some "0xaaa") in
  let w := fst (trackDeposits (provider_of 106 blocks) accepts (world_at 105)) in
  lastProcessedBlock w = 106 /\ map hash (deposits w) = [Some "0xaaa"] /\
  length (telegram w) = 1%nat /\
  logs w = [LogInfo "New deposit saved: 0xaaa";
            LogError "Error saving deposit to database:" (MongoError "write rejected")].
Proof. vm_compute. repeat split; reflexivity. Qed.

(** ** Relations between the world before and after a computation *)

(** The cursor is untouched. *)
Definition same_cursor (w w' : World) : Prop :=
  lastProcessedBlock w' = lastProcessedBlock w.

#[export] Instance same_cursor_preorder : PreOrder same_cursor.
Proof. split; [done | intros ??? H1 H2; unfold same_cursor in *; congruence]. Qed.

(** Collection, messages and log only grow, by appending. *)
Definition appends (w w' : World) : Prop :=
  deposits w `prefix_of` deposits w' /\ telegram w `prefix_of` telegram w' /\
  logs w `prefix_of` logs w'.

#[export] Instance appends_preorder : PreOrder appends.
Proof.
  split; [done|]. intros ??? (?&?&?) (?&?&?). split_and!; by etrans.
Qed.

Lemma set_lastProcessedBlock_appends n : preserves appends (set_lastProcessedBlock n).
Proof. intros w. done. Qed.

Lemma log_same_cursor e : preserves same_cursor (log e).
Proof. intros w. done. Qed.

Lemma log_appends e : preserves appends (log e).
Proof. intros w. split_and!; simpl; [done|done|by eexists]. Qed.

Lemma sendTelegramMessage_same_cursor m : preserves same_cursor (sendTelegramMessage m).
Proof. intros w. done. Qed.

Lemma sendTelegramMessage_appends m : preserves appends (sendTelegramMessage m).
Proof. intros w. split_and!; simpl; [done|by eexists|done]. Qed.

Lemma save_deposit_same_cursor accepts d : preserves same_cursor (save_deposit accepts d).
Proof. intros w. unfold save_deposit. by destruct (save accepts d (deposits w)). Qed.

Lemma save_deposit_appends accepts d : preserves appends (save_deposit accepts d).
Proof.
  intros w. unfold save_deposit. rewrite save_spec.
  destruct (save_succeeds accepts d); simpl; [|done]. split_and!; [by eexists|done|done].
Qed.

#[export] Hint Resolve log_same_cursor log_appends sendTelegramMessage_same_cursor
  sendTelegramMessage_appends save_deposit_same_cursor save_deposit_appends
  set_lastProcessedBlock_appends : exn_pres.

(** ** Generic preservation through the loops of a tick *)

Section Loops.
Variable p : Provider.
Variable accepts : Deposit -> bool.
Variable R : relation World.
Context `{!PreOrder R}.

Lemma process_deposits_preserves currentBlock blockDetails ds :
  (forall tx, In tx ds -> preserves R (process_deposit accepts currentBlock blockDetails tx)) ->
  preserves R (process_deposits accepts currentBlock blockDetails ds).
Proof.
  induction ds as [|tx ds IH]; intros H; cbn [process_deposits]; [papply ret_preserves|].
  papply bind_preserves; [by apply H; left | intros _; apply IH; eauto with datatypes].
Qed.

Lemma block_loop_preserves fuel currentBlock latestBlockNumber :
  (forall b, currentBlock <= b <= latestBlockNumber -> preserves R (process_block p accepts b)) ->
  preserves R (block_loop p accepts fuel currentBlock latestBlockNumber).
Proof.
  revert currentBlock. induction fuel as [|fuel IH]; intros cur H; cbn [block_loop]; [papply ret_preserves|].
  destruct (Z.leb_spec cur latestBlockNumber); [|papply ret_preserves].
  papply bind_preserves; [apply H; lia | intros _; apply IH; intros b Hb; apply H; lia].
Qed.
End Loops.

Lemma process_deposit_same_cursor accepts c b tx :
  preserves same_cursor (process_deposit accepts c b tx).
Proof. unfold process_deposit. preserves_auto. Qed.

Lemma process_deposit_appends accepts c b tx :
  preserves appends (process_deposit accepts c b tx).
Proof. unfold process_deposit. preserves_auto. Qed.

(** ** The outcome of one block *)

Definition lacks_gasPrice (tx : Transaction) : bool :=
  match tx_gasPrice tx with None => true | Some _ => false end.

(** Whether the iteration for block [b] throws, ending the tick: the fetch
    rejects, the block is [null], or a matched transaction has no
    [gasPrice].  A rejected save does not count: it is caught inside the
    iteration. *)
Definition block_fails (p : Provider) (b : Z) : bool :=
  match getBlockWithTransactions p b with
  | Ok (Some blk) => existsb lacks_gasPrice (filter_deposits (block_transactions blk))
  | _ => true
  end.

Lemma process_deposit_outcome accepts c blk tx w :
  snd (process_deposit accepts c blk tx w) =
  if lacks_gasPrice tx then Throw gasPrice_error else Ok tt.
Proof.
  unfold process_deposit, lacks_gasPrice, new_deposit.
  destruct (tx_gasPrice tx); [|done]. cbn.
  unfold try_catch, bind, save_deposit. by destruct (save _ _ _).
Qed.

Lemma process_deposits_outcome accepts c blk ds w :
  snd (process_deposits accepts c blk ds w) =
  if existsb lacks_gasPrice ds then Throw gasPrice_error else Ok tt.
Proof.
  revert w. induction ds as [|tx ds IH]; intros w; [done|]. cbn [process_deposits existsb].
  pose proof (process_deposit_outcome accepts c blk tx w) as Ho.
  unfold bind. destruct (process_deposit accepts c blk tx w) as [w1 o]. simpl in Ho; subst o.
  destruct (lacks_gasPrice tx); simpl; [done|]. apply IH.
Qed.

Lemma process_block_cursor p accepts b w :
  lastProcessedBlock (fst (process_block p accepts b w)) =
    (if block_fails p b then lastProcessedBlock w else b) /\
  succeeded (snd (process_block p accepts b w)) = negb (block_fails p b).
Proof.
  unfold process_block, block_fails.
  destruct (getBlockWithTransactions p b) as [[blk|]|e]; [|done|done]. cbn.
  pose proof (process_deposits_outcome accepts b blk (filter_deposits (block_transactions blk)) w) as Ho.
  pose proof (process_deposits_preserves accepts same_cursor b blk
                (filter_deposits (block_transactions blk))
                (fun tx _ => process_deposit_same_cursor accepts b blk tx) w) as Hc.
  unfold bind. destruct (process_deposits _ _ _ _ w) as [w1 o]. simpl in *; subst o.
  destruct (existsb _ _); done.
Qed.

(** ** The cursor after the block loop *)

(** Where the loop leaves the cursor: one before the first block that
    fails, or the last block of the range. *)
Fixpoint scan_end (p : Provider) (fuel : nat) (cur t : Z) : Z :=
  match fuel with
  | O => cur - 1
  | S fuel' =>
      if cur <=? t then
        if block_fails p cur then cur - 1 else scan_end p fuel' (cur + 1) t
      else cur - 1
  end.

Lemma block_loop_cursor p accepts fuel cur t w :
  lastProcessedBlock w = cur - 1 ->
  lastProcessedBlock (fst (block_loop p accepts fuel cur t w)) = scan_end p fuel cur t.
Proof.
  revert cur w. induction fuel as [|fuel IH]; intros cur w Hw; cbn [block_loop scan_end]; [done|].
  destruct (cur <=? t); [|done].
  destruct (process_block_cursor p accepts cur w) as [Hc Ho].
  unfold bind. destruct (process_block p accepts cur w) as [w1 o]. simpl in *.
  destruct (block_fails p cur), o; simpl in *; try done; [congruence|].
  apply IH. lia.
Qed.

Lemma scan_end_ge p fuel cur t : cur - 1 <= scan_end p fuel cur t.
Proof.
  revert cur. induction fuel as [|fuel IH]; intros cur; simpl; [lia|].
  destruct (cur <=? t), (block_fails p cur); try lia. specialize (IH (cur + 1)). lia.
Qed.

Lemma scan_end_first_failure p fuel cur t k :
  (Z.to_nat (t - cur + 1) <= fuel)%nat -> cur <= k <= t ->
  (forall b, cur <= b < k -> block_fails p b = false) -> block_fails p k = true ->
  scan_end p fuel cur t = k - 1.
Proof.
  revert cur. induction fuel as [|fuel IH]; intros cur Hf Hk Hok Hfail; simpl; [lia|].
  destruct (Z.leb_spec cur t); [|lia].
  destruct (Z.eq_dec cur k) as [->|Hne]; [by rewrite Hfail|].
  rewrite Hok by lia. apply IH; [lia|lia| |done]. intros b Hb. apply Hok. lia.
Qed.

Lemma scan_end_all_ok p fuel cur t :
  (Z.to_nat (t - cur + 1) <= fuel)%nat ->
  (forall b, cur <= b <= t -> block_fails p b = false) ->
  scan_end p fuel cur t = Z.max (cur - 1) t.
Proof.
  revert cur. induction fuel as [|fuel IH]; intros cur Hf Hok; simpl; [lia|].
  destruct (Z.leb_spec cur t); [|lia].
  rewrite Hok by lia. rewrite IH; [lia|lia|]. intros b Hb. apply Hok. lia.
Qed.

(** ** The cursor after a tick *)

(** The cursor the loop starts from (index.js 76-78). *)
Definition start_cursor (last tip : Z) : Z := if last =? 0 then tip - 1 else last.

Lemma try_catch_log_cursor (m : M unit) msg w :
  lastProcessedBlock (fst (try_catch m (fun e => log (LogError msg e)) w)) =
  lastProcessedBlock (fst (m w)).
Proof. unfold try_catch. by destruct (m w) as [w' [[]|e]]. Qed.

Lemma trackDeposits_cursor p accepts w :
  lastProcessedBlock (fst (trackDeposits p accepts w)) =
  match getBlockNumber p with
  | Ok t => let c := start_cursor (lastProcessedBlock w) t in
            scan_end p (Z.to_nat (t - c)) (c + 1) t
  | Throw _ => lastProcessedBlock w
  end.
Proof.
  unfold trackDeposits, start_cursor. rewrite try_catch_log_cursor.
  destruct (getBlockNumber p) as [t|e]; [|done]. cbn.
  destruct (lastProcessedBlock w =? 0); cbn; apply block_loop_cursor; simpl; lia.
Qed.

(** C1. Monotonicity: once the cursor is set, a tick never moves it
    back, whatever the provider answers and whatever the database
    accepts. *)
Theorem trackDeposits_cursor_monotone p accepts w :
  lastProcessedBlock w <> 0 ->
  lastProcessedBlock w <= lastProcessedBlock (fst (trackDeposits p accepts w)).
Proof.
  intros H. rewrite trackDeposits_cursor. unfold start_cursor.
  rewrite (proj2 (Z.eqb_neq _ _) H).
  destruct (getBlockNumber p) as [t|]; [|lia].
  pose proof (scan_end_ge p (Z.to_nat (t - lastProcessedBlock w)) (lastProcessedBlock w + 1) t). lia.
Qed.

Lemma trackDeposits_cursor_monotone_witness :
  lastProcessedBlock (world_at 100) <> 0 /\
  lastProcessedBlock (world_at 100) <=
  lastProcessedBlock (fst (trackDeposits (provider_of 105 blocks_2) accept_all (world_at 100))).
Proof.
  split; [discriminate|]. apply trackDeposits_cursor_monotone. discriminate.
Defined.

(** C2. Abort preserves progress: when block [k] is the first block of the
    range whose iteration throws, the tick leaves the cursor at [k - 1]. *)
Theorem trackDeposits_abort_at_first_failure p accepts w t k :
  getBlockNumber p = Ok t -> lastProcessedBlock w <> 0 ->
  lastProcessedBlock w < k <= t ->
  (forall b, lastProcessedBlock w < b < k -> block_fails p b = false) ->
  block_fails p k = true ->
  lastProcessedBlock (fst (trackDeposits p accepts w)) = k - 1.
Proof.
  intros Ht Hc Hk Hok Hfail. rewrite trackDeposits_cursor, Ht. unfold start_cursor.
  rewrite (proj2 (Z.eqb_neq _ _) Hc). apply scan_end_first_failure; [lia|lia| |done].
  intros b Hb. apply Hok. lia.
Qed.

Definition blocks_3 (b : Z) : outcome js_error (option Block) :=
  if b =? 104 then Throw (ProviderError "timeout") else blocks_2 b.

Lemma trackDeposits_abort_at_first_failure_witness :
  lastProcessedBlock (fst (trackDeposits (provider_of 105 blocks_3) accept_all (world_at 100))) = 103.
Proof.
  apply (trackDeposits_abort_at_first_failure _ _ _ 105 104); simpl; try lia; try reflexivity.
  intros b Hb. assert (b = 101 \/ b = 102 \/ b = 103) as [->|[->| ->]] by lia; reflexivity.
Defined.

(** C3. Completion: when no iteration of the range throws, the tick ends
    with the cursor at the tip (or where it was, if the tip is behind). *)
Theorem trackDeposits_reaches_tip p accepts w t :
  getBlockNumber p = Ok t -> lastProcessedBlock w <> 0 ->
  (forall b, lastProcessedBlock w < b <= t -> block_fails p b = false) ->
  lastProcessedBlock (fst (trackDeposits p accepts w)) = Z.max (lastProcessedBlock w) t.
Proof.
  intros Ht Hc Hok. rewrite trackDeposits_cursor, Ht. unfold start_cursor.
  rewrite (proj2 (Z.eqb_neq _ _) Hc), scan_end_all_ok; [lia|lia|].
  intros b Hb. apply Hok. lia.
Qed.

Lemma trackDeposits_reaches_tip_witness :
  lastProcessedBlock (fst (trackDeposits (provider_of 105 blocks_2) accept_all (world_at 100))) =
  Z.max (lastProcessedBlock (world_at 100)) 105.
Proof.
  apply (trackDeposits_reaches_tip _ _ _ 105); try reflexivity; try discriminate.
  intros b Hb. simpl in Hb.
  assert (b = 101 \/ b = 102 \/ b = 103 \/ b = 104 \/ b = 105)
    as [->|[->|[->|[->| ->]]]] by lia; reflexivity.
Defined.

(** C4. A failed save never holds the cursor back: where a tick leaves the
    cursor depends neither on which writes the database accepts nor on the
    documents, messages and log already there. *)
Theorem trackDeposits_cursor_ignores_store p accepts1 accepts2 c docs1 docs2 tg1 tg2 logs1 logs2 :
  lastProcessedBlock (fst (trackDeposits p accepts1 (mkWorld c docs1 tg1 logs1))) =
  lastProcessedBlock (fst (trackDeposits p accepts2 (mkWorld c docs2 tg2 logs2))).
Proof. by rewrite !trackDeposits_cursor. Qed.

(** C5. The first tick, with the cursor unset, scans exactly the block
    that is the tip and ends at it, or at the block before if that block's
    iteration throws. *)
Theorem trackDeposits_first_tick p accepts w t :
  lastProcessedBlock w = 0 -> getBlockNumber p = Ok t ->
  lastProcessedBlock (fst (trackDeposits p accepts w)) =
  if block_fails p t then t - 1 else t.
Proof.
  intros Hc Ht. rewrite trackDeposits_cursor, Ht, Hc. unfold start_cursor. simpl.
  replace (Z.to_nat (t - (t - 1))) with 1%nat by lia. simpl.
  rewrite Z.sub_simpl_r, Z.leb_refl. destruct (block_fails p t); [lia|].
  simpl. lia.
Qed.

Lemma trackDeposits_first_tick_witness :
  lastProcessedBlock (fst (trackDeposits (provider_of 100 (fun _ => Ok (Some empty_block)))
                            accept_all init_world)) = 100.
Proof. rewrite (trackDeposits_first_tick _ _ _ 100); reflexivity. Defined.

(** ** What a tick writes *)

(** Every computation of a tick in which the writes of the cursor, the log
    and the body of the deposit loop preserve a preorder preserves it. *)
Lemma trackDeposits_preserves (R : relation World) `{!PreOrder R} p accepts :
  (forall n, preserves R (set_lastProcessedBlock n)) ->
  (forall e, preserves R (log e)) ->
  (forall c blk tx, preserves R (process_deposit accepts c blk tx)) ->
  preserves R (trackDeposits p accepts).
Proof.
  intros Hs Hl Hd. unfold trackDeposits.
  preserves_auto. papply block_loop_preserves. intros b _. unfold process_block.
  preserves_auto. papply process_deposits_preserves. auto.
Qed.

(** Documents are appended, and each one's message is sent. *)
Definition notified (w w' : World) : Prop :=
  exists new, deposits w' = deposits w ++ new /\
              telegram w' = telegram w ++ map (fun d => with_signature (doc_message d)) new.

#[export] Instance notified_preorder : PreOrder notified.
Proof.
  split.
  - intros w. exists []. by rewrite !app_nil_r.
  - intros w1 w2 w3 (n1 & D1 & T1) (n2 & D2 & T2). exists (n1 ++ n2).
    by rewrite D2, D1, T2, T1, map_app, !app_assoc.
Qed.

Lemma set_lastProcessedBlock_notified n : preserves notified (set_lastProcessedBlock n).
Proof. intros w. exists []. by rewrite !app_nil_r. Qed.

Lemma log_notified e : preserves notified (log e).
Proof. intros w. exists []. by rewrite !app_nil_r. Qed.

Lemma process_deposit_notified accepts c blk tx :
  preserves notified (process_deposit accepts c blk tx).
Proof.
  intros w. unfold process_deposit. destruct (new_deposit c blk tx) as [d|e] eqn:E; cbn; [|done].
  unfold try_catch, bind, save_deposit. rewrite save_spec.
  destruct (save_succeeds accepts d); cbn.
  - exists [d]. by rewrite (deposit_message_doc _ _ _ _ E).
  - exists []. by rewrite !app_nil_r.
Qed.

(** C8. Exactly one notification per stored document: a tick appends
    documents to the collection and, in the same order, one signed
    message per appended document, reporting that document's fields; a
    rejected save sends nothing. *)
Theorem trackDeposits_notifies_each_save p accepts w :
  exists new,
    deposits (fst (trackDeposits p accepts w)) = deposits w ++ new /\
    telegram (fst (trackDeposits p accepts w)) =
      telegram w ++ map (fun d => with_signature (doc_message d)) new.
Proof.
  apply (trackDeposits_preserves notified); auto using set_lastProcessedBlock_notified,
    log_notified, process_deposit_notified.
Qed.

(** ** Only deposits of scanned blocks are stored *)

(** [d] is the document built for a matched transaction of a block
    [lo <= b <= hi] as the provider returned it. *)
Definition from_block (p : Provider) (lo hi : Z) (d : Deposit) : Prop :=
  exists b blk tx,
    lo <= b <= hi /\ getBlockWithTransactions p b = Ok (Some blk) /\
    In tx (filter_deposits (block_transactions blk)) /\ new_deposit b blk tx = Ok d.

(** The documents appended all satisfy [P]. *)
Definition stores_only (P : Deposit -> Prop) (w w' : World) : Prop :=
  exists new, deposits w' = deposits w ++ new /\ Forall P new.

#[export] Instance stores_only_preorder P : PreOrder (stores_only P).
Proof.
  split.
  - intros w. exists []. by rewrite app_nil_r.
  - intros w1 w2 w3 (n1 & D1 & F1) (n2 & D2 & F2). exists (n1 ++ n2).
    rewrite D2, D1, app_assoc. split; [done|]. by apply Forall_app.
Qed.

Lemma stores_only_same_docs P w w' : deposits w' = deposits w -> stores_only P w w'.
Proof. intros H. exists []. by rewrite H, app_nil_r. Qed.

Lemma process_deposit_stores_only P accepts c blk tx :
  (forall d, new_deposit c blk tx = Ok d -> validate d = None -> P d) ->
  preserves (stores_only P) (process_deposit accepts c blk tx).
Proof.
  intros HP w. unfold process_deposit. destruct (new_deposit c blk tx) as [d|e] eqn:E; cbn;
    [|by apply stores_only_same_docs].
  unfold try_catch, bind, save_deposit. rewrite save_spec.
  destruct (save_succeeds accepts d) eqn:Hs; cbn; [|by apply stores_only_same_docs].
  exists [d]. split; [done|]. constructor; [|constructor].
  apply HP; [done|]. unfold save_succeeds in Hs. by destruct (validate d).
Qed.

Lemma process_block_stores_only p accepts lo hi b :
  lo <= b <= hi -> preserves (stores_only (from_block p lo hi)) (process_block p accepts b).
Proof.
  intros Hb w. unfold process_block.
  destruct (getBlockWithTransactions p b) as [[blk|]|e] eqn:Hget; cbn;
    [|by apply stores_only_same_docs..].
  papply bind_preserves; [|intros _; intros w'; by apply stores_only_same_docs].
  papply process_deposits_preserves. intros tx Htx.
  apply process_deposit_stores_only. intros d Hd _. exists b, blk, tx. done.
Qed.

(** The world with the cursor replaced. *)
Definition with_cursor (c : Z) (w : World) : World :=
  mkWorld c (deposits w) (telegram w) (logs w).

(** A tick whose tip query answers [t] is the block loop from the start
    cursor, run on the world whose cursor is set to it, under the catch of
    index.js 126-128. *)
Lemma trackDeposits_run p accepts w t :
  getBlockNumber p = Ok t ->
  trackDeposits p accepts w =
  let c := start_cursor (lastProcessedBlock w) t in
  try_catch (block_loop p accepts (Z.to_nat (t - c)) (c + 1) t)
    (fun error => log (LogError "Error tracking deposits:" error)) (with_cursor c w).
Proof.
  intros Ht. unfold trackDeposits, start_cursor, try_catch, bind, lift, gets. rewrite Ht.
  destruct w as [c docs tg lg]; simpl. by destruct (c =? 0).
Qed.

Lemma try_catch_log_preserves (R : relation World) `{!PreOrder R} (m : M unit) msg w :
  R w (fst (m w)) -> (forall e, preserves R (log e)) ->
  R w (fst (try_catch m (fun e => log (LogError msg e)) w)).
Proof.
  intros Hm Hl. unfold try_catch. destruct (m w) as [w' [[]|e]]; simpl in *; [done|].
  etrans; [exact Hm | apply Hl].
Qed.

(** C9. Soundness of the collection: every document a tick appends was
    built, by the mapping of index.js 99-105, from a transaction that the
    filter kept in a block [b] that the provider returned, with [b] in the
    range the tick scans. *)
Theorem trackDeposits_stores_only_deposits p accepts w t :
  getBlockNumber p = Ok t ->
  exists new,
    deposits (fst (trackDeposits p accepts w)) = deposits w ++ new /\
    Forall (from_block p (start_cursor (lastProcessedBlock w) t + 1) t) new.
Proof.
  intros Ht. rewrite (trackDeposits_run _ _ _ t Ht). simpl.
  set (c := start_cursor _ t).
  enough (stores_only (from_block p (c + 1) t) w
            (fst (try_catch (block_loop p accepts (Z.to_nat (t - c)) (c + 1) t)
                    (fun e => log (LogError "Error tracking deposits:" e)) (with_cursor c w))))
    by done.
  transitivity (with_cursor c w); [by apply stores_only_same_docs|].
  papply try_catch_log_preserves; [|intros e w'; by apply stores_only_same_docs].
  papply block_loop_preserves. intros b Hb. by apply process_block_stores_only.
Qed.

Lemma trackDeposits_stores_only_deposits_witness :
  getBlockNumber (provider_of 105 blocks_2) = Ok 105 /\
  exists new,
    deposits (fst (trackDeposits (provider_of 105 blocks_2) accept_all (world_at 100))) =
      deposits (world_at 100) ++ new /\
    Forall (from_block (provider_of 105 blocks_2)
              (start_cursor (lastProcessedBlock (world_at 100)) 105 + 1) 105) new.
Proof. split; [reflexivity|]. by apply (trackDeposits_stores_only_deposits _ _ _ 105). Defined.

(** ** Repeated ticks *)

(** [setInterval(trackDeposits, 5 * 1000)] (index.js 132) when every tick
    finishes before the next one fires, the provider answering alike each
    time.  Overlapping ticks are the subject of [Scheduler]. *)
Definition run_ticks (n : nat) (p : Provider) (accepts : Deposit -> bool) (w : World) : World :=
  Nat.iter n (fun w => fst (trackDeposits p accepts w)) w.

(** A block with a deposit followed by a matched transaction that has no
    [gasPrice]. *)
Definition poisoned_tx : Transaction :=
  mkTransaction (Some contractAddress) "0xddd" None None.

Definition blocks_poisoned (b : Z) : outcome js_error (option Block) :=
  if b =? 103 then Ok (Some (mkBlock 1700000000 [deposit_tx "0xaaa" 1; poisoned_tx]))
  else Ok (Some empty_block).

Lemma poisoned_tick docs tg lg :
  exists tg' lg',
    fst (trackDeposits (provider_of 105 blocks_poisoned) accept_all (mkWorld 102 docs tg lg)) =
    mkWorld 102 (docs ++ [{| blockNumber := Some 103;
                             blockTimestamp := Some (new_Date (1700000000 * 1000));
                             fee := Some "1"; hash := Some "0xaaa";
                             pubkey := Some "0x22895118" |}]) tg' lg'.
Proof. do 2 eexists. reflexivity. Qed.

Lemma poisoned_run n :
  let w := run_ticks n (provider_of 105 blocks_poisoned) accept_all (world_at 102) in
  lastProcessedBlock w = 102 /\ count_hash "0xaaa" (deposits w) = n.
Proof.
  induction n as [|n IH]; [split; reflexivity|]. cbv zeta in *. destruct IH as [Hc Hn].
  change (run_ticks (S n) ?p ?a ?w) with (fst (trackDeposits p a (run_ticks n p a w))).
  destruct (run_ticks n _ _ _) as [c docs tg lg]. simpl in Hc, Hn. subst c.
  destruct (poisoned_tick docs tg lg) as (tg' & lg' & ->). simpl.
  rewrite count_hash_app, Hn. change (count_hash "0xaaa" [_]) with 1%nat. lia.
Qed.

(** C10. The stalled block is saved again on every tick: with its first
    deposit saved and its second matched transaction lacking [gasPrice],
    [n] ticks leave [n] documents with the first deposit's hash, and the
    cursor where it was. *)
Theorem poisoned_block_duplicates n :
  let w := run_ticks n (provider_of 105 blocks_poisoned) accept_all (world_at 102) in
  lastProcessedBlock w = 102 /\ count_hash "0xaaa" (deposits w) = n.
Proof. apply poisoned_run. Qed.

(** ** Termination of the block loop *)

(** The fuel of [block_loop] is adequate: with any budget of at least
    [max 0 (latestBlockNumber - currentBlock + 1)] iterations the loop
    stops by its own guard, so the budget [trackDeposits] gives changes
    nothing. *)
Lemma block_loop_fuel p accepts fuel cur t w :
  (Z.to_nat (t - cur + 1) <= fuel)%nat ->
  block_loop p accepts fuel cur t w = block_loop p accepts (Z.to_nat (t - cur + 1)) cur t w.
Proof.
  revert cur w. induction fuel as [|fuel IH]; intros cur w Hf.
  - by replace (Z.to_nat (t - cur + 1)) with 0%nat by lia.
  - destruct (Z.leb_spec cur t).
    + replace (Z.to_nat (t - cur + 1)) with (S (Z.to_nat (t - (cur + 1) + 1))) by lia.
      cbn [block_loop]. rewrite (proj2 (Z.leb_le _ _) H).
      apply bind_ext. intros [] w'. apply IH. lia.
    + replace (Z.to_nat (t - cur + 1)) with 0%nat by lia.
      cbn [block_loop]. by rewrite (proj2 (Z.leb_gt _ _) H).
Qed.

(** ** The loop as a list of block numbers *)

(** Reference: process the given block numbers in list order. *)
Fixpoint process_blocks (p : Provider) (accepts : Deposit -> bool) (bs : list Z) : M unit :=
  match bs with
  | [] => ret tt
  | b :: bs' => process_block p accepts b ;; process_blocks p accepts bs'
  end.

Lemma block_loop_as_list p accepts cur t w :
  block_loop p accepts (Z.to_nat (t - cur + 1)) cur t w =
  process_blocks p accepts (seqZ cur (t - cur + 1)) w.
Proof.
  remember (Z.to_nat (t - cur + 1)) as n eqn:Hn. revert cur w Hn.
  induction n as [|n IH]; intros cur w Hn.
  - by rewrite seqZ_nil by lia.
  - rewrite seqZ_cons by lia. cbn [block_loop process_blocks].
    rewrite (proj2 (Z.leb_le cur t)) by lia.
    replace (Z.pred (t - cur + 1)) with (t - (cur + 1) + 1) by lia.
    rewrite Z.add_1_r. apply bind_ext. intros [] w'. rewrite <- Z.add_1_r. apply IH. lia.
Qed.

(** C13. The [for] loop of index.js 81-85 is the processing, in ascending
    order, of exactly the block numbers [currentBlock], ...,
    [latestBlockNumber] (none when the range is empty): each block of the
    range once, in order, and no other. *)
Theorem block_loop_seqZ p accepts cur t w :
  block_loop p accepts (Z.to_nat (t - cur + 1)) cur t w =
  process_blocks p accepts (seqZ cur (t - cur + 1)) w.
Proof. apply block_loop_as_list. Qed.

(** ** Well-typed documents *)

(** A document as [trackDeposits] means it: block number, a valid date,
    fee and hash are all present ([pubkey] may be absent, see [Chain]). *)
Definition wf_doc (d : Deposit) : Prop :=
  exists b ts f h, blockNumber d = Some b /\ blockTimestamp d = Some (DateValue ts) /\
                   fee d = Some f /\ hash d = Some h.

Lemma new_deposit_wf c blk tx d :
  new_deposit c blk tx = Ok d -> validate d = None -> wf_doc d.
Proof.
  unfold new_deposit. destruct (tx_gasPrice tx); [|done]. intros [= <-].
  unfold validate. simpl. destruct (new_Date _) as [ts|]; [|done]. intros _. by do 4 eexists.
Qed.

(** Every computation of a tick keeps [stores_only P] when every document
    that passes validation satisfies [P]. *)
Lemma trackDeposits_stores_only (P : Deposit -> Prop) p accepts w :
  (forall c blk tx d, new_deposit c blk tx = Ok d -> validate d = None -> P d) ->
  stores_only P w (fst (trackDeposits p accepts w)).
Proof.
  intros HP. apply (trackDeposits_preserves (stores_only P)).
  - intros n w'. by apply stores_only_same_docs.
  - intros e w'. by apply stores_only_same_docs.
  - intros c blk tx. apply process_deposit_stores_only. eauto.
Qed.

(** C14. Typing invariant of the collection: every document a tick
    appends has its block number, a valid [Date], its fee and its hash. *)
Theorem trackDeposits_docs_well_typed p accepts w :
  exists new, deposits (fst (trackDeposits p accepts w)) = deposits w ++ new /\
              Forall wf_doc new.
Proof. apply trackDeposits_stores_only. apply new_deposit_wf. Qed.

(** ** Order of the stored documents *)

(** The documents [new] carry block numbers [ns], non-decreasing, each one
    of the block numbers [bs]. *)
Definition in_block_order (bs : list Z) (new : list Deposit) : Prop :=
  exists ns, map blockNumber new = map Some ns /\ StronglySorted Z.le ns /\
             Forall (fun n => n ∈ bs) ns.

Lemma new_deposit_blockNumber c blk tx d :
  new_deposit c blk tx = Ok d -> blockNumber d = Some c.
Proof. unfold new_deposit. destruct (tx_gasPrice tx); [|done]. by intros [= <-]. Qed.

Lemma stores_only_mono (P Q : Deposit -> Prop) w w' :
  (forall d, P d -> Q d) -> stores_only P w w' -> stores_only Q w w'.
Proof. intros HPQ (new & D & F). exists new. split; [done|]. by eapply Forall_impl. Qed.

(** One block stores only documents carrying its own number. *)
Lemma process_block_numbers p accepts b w :
  stores_only (fun d => blockNumber d = Some b) w (fst (process_block p accepts b w)).
Proof.
  eapply stores_only_mono; [|by apply (process_block_stores_only p accepts b b); lia].
  intros d (b' & blk & tx & Hb & _ & _ & Hd). apply new_deposit_blockNumber in Hd.
  by replace b with b' by lia.
Qed.

Lemma map_blockNumber_same b (new : list Deposit) :
  Forall (fun d => blockNumber d = Some b) new ->
  map blockNumber new = map Some (replicate (length new) b).
Proof. induction 1 as [|d new Hd _ IH]; [done|]. simpl. by rewrite Hd, IH. Qed.

Lemma StronglySorted_replicate (n : nat) (b : Z) : StronglySorted Z.le (replicate n b).
Proof.
  induction n as [|n IH]; constructor; [done|].
  apply Forall_replicate. reflexivity.
Qed.

Lemma in_block_order_cons b bs new1 new2 :
  Forall (Z.le b) bs ->
  Forall (fun d => blockNumber d = Some b) new1 -> in_block_order bs new2 ->
  in_block_order (b :: bs) (new1 ++ new2).
Proof.
  intros Hle H1 (ns & Hm & Hs & Hin). exists (replicate (length new1) b ++ ns).
  rewrite !map_app, Hm, (map_blockNumber_same b) by done. split_and!; [done| |].
  - apply StronglySorted_app_2; [|apply StronglySorted_replicate|done].
    intros x1 x2 Hx1%elem_of_replicate Hx2. destruct Hx1 as [-> _].
    rewrite Forall_forall in Hin, Hle. by apply Hle, Hin.
  - apply Forall_app. split.
    + apply Forall_replicate. left.
    + eapply Forall_impl; [done|]. intros n Hn. by right.
Qed.

(** Processing a non-decreasing list of blocks appends its documents in
    block order, also when a block throws half way. *)
Lemma process_blocks_order p accepts bs w :
  StronglySorted Z.le bs ->
  exists new, deposits (fst (process_blocks p accepts bs w)) = deposits w ++ new /\
              in_block_order bs new.
Proof.
  intros Hs. revert w. induction Hs as [|b bs Hs IH Hle]; intros w.
  - exists []. split; [by rewrite app_nil_r|]. exists []. split_and!; constructor.
  - destruct (process_block_numbers p accepts b w) as (new1 & D1 & F1).
    cbn [process_blocks]. unfold bind. destruct (process_block p accepts b w) as [w1 [[]|e]]; cbn in D1 |- *.
    + destruct (IH w1) as (new2 & D2 & O2). exists (new1 ++ new2).
      rewrite D2, D1, app_assoc. split; [done|]. by apply in_block_order_cons.
    + exists new1. rewrite <- (app_nil_r new1) at 2. split; [done|].
      apply in_block_order_cons; [done|done|]. exists []. split_and!; constructor.
Qed.

Lemma seqZ_sorted m n : StronglySorted Z.le (seqZ m n).
Proof.
  remember (Z.to_nat n) as k eqn:Hk. revert m n Hk.
  induction k as [|k IH]; intros m n Hk.
  - rewrite seqZ_nil by lia. constructor.
  - rewrite seqZ_cons by lia. constructor; [apply (IH _ _); lia|].
    apply Forall_forall. intros x Hx%elem_of_seqZ. lia.
Qed.

Lemma try_catch_log_deposits (m : M unit) msg w :
  deposits (fst (try_catch m (fun e => log (LogError msg e)) w)) = deposits (fst (m w)).
Proof. unfold try_catch. by destruct (m w) as [w' [[]|e]]. Qed.

(** C19. Order of the collection: the documents a tick appends carry
    block numbers, and these never decrease: the deposits of a block are
    stored after those of every earlier block of the tick, whatever the
    provider and the database answer (a throw ends the tick with a prefix
    of that order). *)
Theorem trackDeposits_appends_in_block_order p accepts w :
  exists new ns, deposits (fst (trackDeposits p accepts w)) = deposits w ++ new /\
                 map blockNumber new = map Some ns /\ StronglySorted Z.le ns.
Proof.
  destruct (getBlockNumber p) as [t|e] eqn:Ht.
  - rewrite (trackDeposits_run p accepts w t Ht). cbv zeta.
    set (c := start_cursor (lastProcessedBlock w) t).
    rewrite try_catch_log_deposits.
    replace (Z.to_nat (t - c)) with (Z.to_nat (t - (c + 1) + 1)) by (f_equal; lia).
    rewrite block_loop_as_list.
    destruct (process_blocks_order p accepts (seqZ (c + 1) (t - (c + 1) + 1)) (with_cursor c w))
      as (new & D & ns & Hm & Hs & _); [apply seqZ_sorted|].
    by exists new, ns.
  - exists [], []. unfold trackDeposits, try_catch, bind, lift. rewrite Ht.
    simpl. rewrite app_nil_r. split_and!; [done|done|constructor].
Qed.
