(* ===== verification/Logger.v ===== *)
(** * Logger: the winston logger and where its entries go

    [winston.createLogger] (index.js 18-25) with level ["info"] and two
    transports: the console, which takes the logger's level, and the file
    [logs/error.log] with level ["error"].  A transport writes an entry
    when the entry's level is at most as verbose as the transport's level
    (its own, or the logger's when it has none), in the npm order of
    winston.  The JSON line format ([winston.format.json()]) is not
    modelled: a transport's output is the list of entries it writes.

    Also the start-up [mongoose.connect(..).catch(..)] (index.js 28-31) and
    the port the server listens on (index.js 166).  The theorem: what a
    tick writes to [logs/error.log] is one entry per rejected save, then at
    most one ["Error tracking deposits:"] entry, which ends the tick and
    carries an error of the provider or of the document mapping; the
    console gets every entry. *)

From Stdlib Require Import ZArith String Lia.
From stdpp Require Import base list strings.
From S2P Require Import Prelude Chain Filter JsDate Deposit Store Notifier Tracker.

Open Scope string_scope.
Open Scope list_scope.
Local Open Scope exn_scope.

(** ** Levels and transports *)

(** winston's default (npm) levels, from the most severe. *)
Inductive level : Type := error | warn | info | http | verbose | debug | silly.

Definition severity (l : level) : nat :=
  match l with
  | error => 0 | warn => 1 | info => 2 | http => 3 | verbose => 4 | debug => 5 | silly => 6
  end.

Record transport : Type := mkTransport {
  tr_name : string;
  tr_level : option level
}.

Record logger_config : Type := mkLoggerConfig {
  lg_level : level;
  lg_transports : list transport
}.

Definition console : transport := mkTransport "console" None.
Definition error_file : transport := mkTransport "logs/error.log" (Some error).

(** The logger of index.js 18-25. *)
Definition logger : logger_config := mkLoggerConfig info [console; error_file].

(** [logger.info(..)] and [logger.error(..)]. *)
Definition entry_level (e : log_entry) : level :=
  match e with LogInfo _ => info | LogError _ _ => error end.

(** A transport accepts an entry at most as verbose as its level. *)
Definition accepts_entry (cfg : logger_config) (t : transport) (e : log_entry) : bool :=
  (severity (entry_level e) <=? severity (default (lg_level cfg) (tr_level t)))%nat.

Definition transport_output (cfg : logger_config) (t : transport) (es : list log_entry) : list log_entry :=
  List.filter (accepts_entry cfg t) es.

(** ** Start-up *)

(** [mongoose.connect(..).then(..).catch((err) => logger.error(..))]. *)
Definition connect_mongo (r : outcome js_error unit) : M unit :=
  match r with
  | Ok _ => ret tt
  | Throw err => log (LogError "MongoDB connection error" err)
  end.

(** [process.env.PORT || 5000]: an unset or empty variable gives the
    number 5000, any other text is passed to [app.listen] as it is. *)
Inductive port : Type :=
  | PortNumber (n : Z)
  | PortText (s : string).

Definition listen_port (env_PORT : option string) : port :=
  match env_PORT with
  | Some s => if String.eqb s "" then PortNumber 5000 else PortText s
  | None => PortNumber 5000
  end.

(** ** What a tick writes, save attempt by save attempt *)

(** The entry the inner [try] of index.js 108-119 writes for a document
    it tries to save: the info line of a save that succeeds (the document
    carries the transaction's hash), the error of a save that fails. *)
Definition attempt_log (accepts : Deposit -> bool) (d : Deposit) : log_entry :=
  if save_succeeds accepts d
  then LogInfo ("New deposit saved: " ++ default "" (hash d))
  else LogError "Error saving deposit to database:" (default (MongoError "write rejected") (validate d)).

(** From [w] to [w']: documents [ds] were tried in order, the collection
    grew by the ones that saved and the log by one [attempt_log] each. *)
Definition accounted (accepts : Deposit -> bool) (w w' : World) : Prop :=
  exists ds, deposits w' = deposits w ++ List.filter (save_succeeds accepts) ds /\
             logs w' = logs w ++ map (attempt_log accepts) ds.

#[export] Instance accounted_preorder accepts : PreOrder (accounted accepts).
Proof.
  split.
  - intros w. exists []. by rewrite !app_nil_r.
  - intros w1 w2 w3 (d1 & D1 & L1) (d2 & D2 & L2). exists (d1 ++ d2).
    by rewrite D2, D1, L2, L1, List.filter_app, map_app, !app_assoc.
Qed.

Lemma accounted_same accepts w w' :
  deposits w' = deposits w -> logs w' = logs w -> accounted accepts w w'.
Proof. intros D L. exists []. by rewrite D, L, !app_nil_r. Qed.

Lemma set_lastProcessedBlock_accounted accepts n : preserves (accounted accepts) (set_lastProcessedBlock n).
Proof. intros w. by apply accounted_same. Qed.

Lemma new_deposit_hash c b tx d : new_deposit c b tx = Ok d -> hash d = Some (tx_hash tx).
Proof. unfold new_deposit. destruct (tx_gasPrice tx); by intros [= <-]. Qed.

(** One deposit transaction is one save attempt, or none when its
    document cannot be built. *)
Lemma process_deposit_accounted accepts c b tx :
  preserves (accounted accepts) (process_deposit accepts c b tx).
Proof.
  intros w. unfold process_deposit, bind, lift.
  destruct (new_deposit c b tx) as [d|e] eqn:E; [|by apply accounted_same].
  unfold try_catch, save_deposit. rewrite save_spec. exists [d].
  unfold attempt_log. destruct (save_succeeds accepts d) eqn:S; simpl; rewrite S;
    [by rewrite (new_deposit_hash _ _ _ _ E)|by rewrite app_nil_r].
Qed.

#[export] Hint Resolve set_lastProcessedBlock_accounted process_deposit_accounted : exn_pres.

Lemma process_block_accounted p accepts b : preserves (accounted accepts) (process_block p accepts b).
Proof.
  unfold process_block. preserves_auto.
  papply process_deposits_preserves. intros tx _. apply process_deposit_accounted.
Qed.

(** ** Where an abort comes from *)

(** The exceptions that can end the body of a tick: the provider's, the
    [null] block of index.js 87, and the missing [gasPrice] of index.js 103.
    A failed save is not one of them: the inner [catch] keeps it. *)
Definition tick_error (p : Provider) (e : js_error) : Prop :=
  getBlockNumber p = Throw e \/
  (exists b, getBlockWithTransactions p b = Throw e) \/
  e = TypeError "Cannot read properties of null (reading 'transactions')" \/
  e = gasPrice_error.

Lemma log_throws P e : throws_only P (log e).
Proof. by intros w. Qed.

Lemma set_lastProcessedBlock_throws P n : throws_only P (set_lastProcessedBlock n).
Proof. by intros w. Qed.

#[export] Hint Resolve log_throws set_lastProcessedBlock_throws : exn_throws.

Lemma process_deposit_throws p accepts c b tx :
  throws_only (tick_error p) (process_deposit accepts c b tx).
Proof.
  unfold process_deposit. throws_auto. apply lift_throws. intros e.
  unfold new_deposit. destruct (tx_gasPrice tx); intros [= <-]. by do 3 right.
Qed.

Lemma process_deposits_throws p accepts c b ds :
  throws_only (tick_error p) (process_deposits accepts c b ds).
Proof.
  induction ds as [|tx ds IH]; cbn [process_deposits]; [apply ret_throws|].
  apply bind_throws; [apply process_deposit_throws|done].
Qed.

Lemma process_block_throws p accepts b : throws_only (tick_error p) (process_block p accepts b).
Proof.
  unfold process_block. apply bind_throws; [|intros blk; apply bind_throws; [|intros bt]].
  - apply lift_throws. intros e E. right; left. by exists b.
  - apply lift_throws. intros e. unfold transactions_of.
    destruct blk; intros [= <-]. by do 2 right; left.
  - apply bind_throws; [apply process_deposits_throws|intros _; apply set_lastProcessedBlock_throws].
Qed.

Lemma block_loop_throws p accepts fuel cur t :
  throws_only (tick_error p) (block_loop p accepts fuel cur t).
Proof.
  revert cur. induction fuel as [|fuel IH]; intros cur; cbn [block_loop]; [apply ret_throws|].
  apply if_throws; [apply bind_throws; [apply process_block_throws|done]|apply ret_throws].
Qed.

(** ** The two transports *)

Lemma console_all es : transport_output logger console es = es.
Proof. induction es as [|[] es IH]; simpl; by rewrite ?IH. Qed.

Lemma error_file_attempt accepts d :
  accepts_entry logger error_file (attempt_log accepts d) = negb (save_succeeds accepts d).
Proof. unfold attempt_log. by destruct (save_succeeds accepts d). Qed.

Lemma error_file_attempts accepts ds :
  transport_output logger error_file (map (attempt_log accepts) ds) =
  map (attempt_log accepts) (List.filter (fun d => negb (save_succeeds accepts d)) ds).
Proof.
  induction ds as [|d ds IH]; [done|]. unfold transport_output in *. cbn [map List.filter].
  rewrite error_file_attempt. destruct (negb _); by rewrite IH.
Qed.

(** A body of accounted save attempts that aborts only with a
    [tick_error], under the outer catch of index.js 126-128. *)
Lemma try_catch_tracking_logs p accepts (m : M unit) w :
  preserves (accounted accepts) m -> throws_only (tick_error p) m ->
  let w' := fst (try_catch m (fun e => log (LogError "Error tracking deposits:" e)) w) in
  exists ds tail,
    deposits w' = deposits w ++ List.filter (save_succeeds accepts) ds /\
    logs w' = logs w ++ map (attempt_log accepts) ds ++ tail /\
    (tail = [] \/ exists e, tail = [LogError "Error tracking deposits:" e] /\ tick_error p e).
Proof.
  intros Hm Ht. specialize (Hm w). specialize (Ht w). unfold try_catch.
  destruct (m w) as [w' [[]|e]]; destruct Hm as (ds & D & L); simpl in *.
  - exists ds, []. rewrite app_nil_r. split_and!; [done|done|by left].
  - exists ds, [LogError "Error tracking deposits:" e].
    rewrite L, app_assoc. split_and!; [done|done|right; by exists e].
Qed.

