(* ===== verification/Spec.v ===== *)
(** * Spec: the tracking loop of the specification, and the tick against it

    Spec section 4.6 describes one tick declaratively: query the tip, set
    an unset cursor to [tip - 1], then for [b] from [cursor + 1] to [tip] in
    ascending order fetch the block (a failure aborts the tick with the
    cursor at the last completed block), append the record of each matched
    transaction (a failed append is reported and skipped), notify each
    appended record, and advance the cursor to [b].  [tick_spec] states
    that relation between the world before and after a tick; it is
    written from the specification, not from the code.

    The refinement theorem: when the record mapping cannot fail (every
    matched transaction carries [gasPrice], as spec section 4.3 assumes),
    every tick of [trackDeposits] is a tick of the specification.  Without
    that assumption it is not ([Tracker.poisoned_block_duplicates]). *)

From Stdlib Require Import ZArith String Lia.
From stdpp Require Import base list strings.
From S2P Require Import Prelude Chain Filter JsDate Deposit Store Notifier Tracker.

Open Scope string_scope.
Open Scope list_scope.
Open Scope Z_scope.
Local Open Scope exn_scope.

(** ** The specification of a tick (spec section 4.6) *)

(** The notification sent for an appended record (spec section 4.5). *)
Definition notice (d : Deposit) : string := with_signature (doc_message d).

(** [toRecord] of a matched transaction (spec section 4.3). *)
Definition record_of (b : Z) (blk : Block) (tx : Transaction) : list Deposit :=
  match new_deposit b blk tx with Ok d => [d] | Throw _ => [] end.

(** Block [b] can be retrieved. *)
Definition fetched (p : Provider) (b : Z) : Prop :=
  exists blk, getBlockWithTransactions p b = Ok (Some blk).

(** The records of block [b] whose append succeeds (step 2c). *)
Definition block_appends (p : Provider) (accepts : Deposit -> bool) (b : Z) : list Deposit :=
  match getBlockWithTransactions p b with
  | Ok (Some blk) =>
      List.filter (save_succeeds accepts)
        (flat_map (record_of b blk) (filter_deposits (block_transactions blk)))
  | _ => []
  end.

(** [new] is appended to the store, and notified in the same order. *)
Definition stored (new : list Deposit) (w w' : World) : Prop :=
  deposits w' = deposits w ++ new /\ telegram w' = telegram w ++ map notice new.

(** One tick from [w] to [w']: a failed tip query changes nothing; else
    the blocks [s+1 .. k] are processed, where [s] is the start cursor and
    [k] is the tip or the block before the first that cannot be fetched,
    and the cursor ends at [k]. *)
Definition tick_spec (p : Provider) (accepts : Deposit -> bool) (w w' : World) : Prop :=
  match getBlockNumber p with
  | Throw _ => lastProcessedBlock w' = lastProcessedBlock w /\ stored [] w w'
  | Ok t =>
      let s := start_cursor (lastProcessedBlock w) t in
      exists k, s <= k <= Z.max s t /\
        (forall b, s < b <= k -> fetched p b) /\
        (k < t -> ~ fetched p (k + 1)) /\
        lastProcessedBlock w' = k /\
        stored (flat_map (block_appends p accepts) (seqZ (s + 1) (k - s))) w w'
  end.

(** The assumption of spec section 4.3: mapping a matched transaction to
    its record cannot fail. *)
Definition mapping_total (p : Provider) : Prop :=
  forall b blk tx, getBlockWithTransactions p b = Ok (Some blk) ->
    In tx (filter_deposits (block_transactions blk)) -> tx_gasPrice tx <> None.

(** ** The code, block by block *)

Lemma stored_nil w w' : deposits w' = deposits w -> telegram w' = telegram w -> stored [] w w'.
Proof. intros H1 H2. split; by rewrite app_nil_r. Qed.

Lemma stored_app n1 n2 w1 w2 w3 : stored n1 w1 w2 -> stored n2 w2 w3 -> stored (n1 ++ n2) w1 w3.
Proof.
  intros [D1 T1] [D2 T2]. split; [by rewrite D2, D1, app_assoc|].
  by rewrite T2, T1, map_app, app_assoc.
Qed.

(** A matched transaction with a [gasPrice]: its record is appended and
    notified when the save goes through, and the loop goes on either way. *)
Lemma process_deposit_spec accepts b blk tx w :
  tx_gasPrice tx <> None ->
  snd (process_deposit accepts b blk tx w) = Ok tt /\
  stored (List.filter (save_succeeds accepts) (record_of b blk tx)) w (fst (process_deposit accepts b blk tx w)) /\
  lastProcessedBlock (fst (process_deposit accepts b blk tx w)) = lastProcessedBlock w.
Proof.
  intros Hg. unfold process_deposit, record_of.
  destruct (new_deposit b blk tx) as [d|e] eqn:E;
    [|unfold new_deposit in E; by destruct (tx_gasPrice tx)].
  cbn. unfold try_catch, bind, save_deposit. rewrite save_spec.
  destruct (save_succeeds accepts d); cbn; split_and!; try done.
  - split; [done|]. unfold notice. by rewrite (deposit_message_doc _ _ _ _ E).
  - by apply stored_nil.
Qed.

Lemma process_deposits_spec accepts b blk txs w :
  (forall tx, In tx txs -> tx_gasPrice tx <> None) ->
  snd (process_deposits accepts b blk txs w) = Ok tt /\
  stored (List.filter (save_succeeds accepts) (flat_map (record_of b blk) txs)) w
    (fst (process_deposits accepts b blk txs w)) /\
  lastProcessedBlock (fst (process_deposits accepts b blk txs w)) = lastProcessedBlock w.
Proof.
  revert w. induction txs as [|tx txs IH]; intros w Hg; [split_and!; by try apply stored_nil|].
  cbn [process_deposits flat_map]. rewrite List.filter_app.
  destruct (process_deposit_spec accepts b blk tx w) as (O1 & S1 & C1); [by apply Hg; left|].
  unfold bind. destruct (process_deposit accepts b blk tx w) as [w1 o1]; simpl in *; subst o1.
  destruct (IH w1) as (O2 & S2 & C2); [intros; apply Hg; by right|].
  split_and!; [done|by eapply stored_app|congruence].
Qed.

(** A block that can be fetched is processed and the cursor moves to it. *)
Lemma process_block_fetched p accepts b w :
  mapping_total p -> fetched p b ->
  snd (process_block p accepts b w) = Ok tt /\
  stored (block_appends p accepts b) w (fst (process_block p accepts b w)) /\
  lastProcessedBlock (fst (process_block p accepts b w)) = b.
Proof.
  intros Hmap [blk Hb]. unfold process_block, block_appends. rewrite Hb. cbn.
  destruct (process_deposits_spec accepts b blk (filter_deposits (block_transactions blk)) w)
    as (O & S & _); [intros tx Htx; by apply (Hmap b blk tx)|].
  unfold bind. destruct (process_deposits accepts b blk _ w) as [w1 o]; simpl in *; subst o.
  split_and!; [done| |done]. destruct S as [D T]. by split.
Qed.

(** A block that cannot be fetched throws before any write. *)
Lemma process_block_not_fetched p accepts b w :
  ~ fetched p b -> exists e, process_block p accepts b w = (w, Throw e).
Proof.
  intros Hf. unfold process_block, bind, lift.
  destruct (getBlockWithTransactions p b) as [[blk|]|e] eqn:E; [|by eexists|by eexists].
  exfalso. apply Hf. by exists blk.
Qed.

Lemma fetched_dec p b : fetched p b \/ ~ fetched p b.
Proof.
  unfold fetched. destruct (getBlockWithTransactions p b) as [[blk|]|e];
    [left; by exists blk|right; intros [? ?]; congruence..].
Qed.

(** The blocks [cur, cur+1, ..] in order: the code goes on while blocks
    can be fetched, each one stored and the cursor moved to it, and stops
    at the first that cannot. *)
Lemma process_blocks_spec p accepts cur m w :
  mapping_total p -> lastProcessedBlock w = cur - 1 ->
  exists k, cur - 1 <= k <= cur - 1 + Z.of_nat m /\
    (forall b, cur <= b <= k -> fetched p b) /\
    (k < cur - 1 + Z.of_nat m -> ~ fetched p (k + 1)) /\
    lastProcessedBlock (fst (process_blocks p accepts (seqZ cur (Z.of_nat m)) w)) = k /\
    stored (flat_map (block_appends p accepts) (seqZ cur (k - cur + 1))) w
      (fst (process_blocks p accepts (seqZ cur (Z.of_nat m)) w)).
Proof.
  intros Hmap. revert cur w. induction m as [|m IH]; intros cur w Hc.
  - exists (cur - 1). rewrite !seqZ_nil by lia. simpl.
    split_and!; [lia|lia|intros; lia|intros; lia|done|by apply stored_nil].
  - rewrite Nat2Z.inj_succ, seqZ_cons by lia. cbn [process_blocks]. unfold bind.
    destruct (fetched_dec p cur) as [Hb|Hb].
    + destruct (process_block_fetched p accepts cur w Hmap Hb) as (O & S & C).
      destruct (process_block p accepts cur w) as [w1 o]; simpl in *; subst o.
      replace (Z.pred (Z.succ (Z.of_nat m))) with (Z.of_nat m) by lia.
      destruct (IH (Z.succ cur) w1) as (k & Hk & Hf & Hn & Ck & Sk); [lia|].
      exists k. split_and!; [lia|lia| | |done|].
      * intros b Hb'. destruct (Z.eq_dec b cur) as [->|]; [done|]. apply Hf. lia.
      * intros Hlt. apply Hn. lia.
      * rewrite (seqZ_cons cur) by lia. cbn [flat_map].
        replace (Z.pred (k - cur + 1)) with (k - Z.succ cur + 1) by lia.
        exact (stored_app _ _ _ _ _ S Sk).
    + destruct (process_block_not_fetched p accepts cur w Hb) as [e He]. rewrite He.
      exists (cur - 1). simpl. rewrite seqZ_nil by lia.
      split_and!; [lia|lia|intros; lia| |done|by apply stored_nil].
      intros _. by replace (cur - 1 + 1) with cur by lia.
Qed.

(** The outer catch only writes the log. *)
Lemma try_catch_log_frame (m : M unit) msg w :
  deposits (fst (try_catch m (fun e => log (LogError msg e)) w)) = deposits (fst (m w)) /\
  telegram (fst (try_catch m (fun e => log (LogError msg e)) w)) = telegram (fst (m w)) /\
  lastProcessedBlock (fst (try_catch m (fun e => log (LogError msg e)) w)) = lastProcessedBlock (fst (m w)).
Proof. unfold try_catch. by destruct (m w) as [w1 [[]|e]]. Qed.

Lemma seqZ_to_nat a n : seqZ a n = seqZ a (Z.of_nat (Z.to_nat n)).
Proof. unfold seqZ. by rewrite Nat2Z.id. Qed.

(** ** The refinement *)

(** C26. The tick meets the tracking loop of spec section 4.6: when no
    record mapping fails, every tick of [trackDeposits] scans the blocks
    after the start cursor in ascending order, stops exactly before the
    first block that cannot be fetched (or at the tip), leaves the cursor
    on the last completed block, and appends and notifies, in order, the
    records of those blocks whose append succeeds; a failed tip query
    changes neither cursor, store nor notifications. *)
Theorem trackDeposits_refines_spec p accepts w :
  mapping_total p -> tick_spec p accepts w (fst (trackDeposits p accepts w)).
Proof.
  intros Hmap. unfold tick_spec. destruct (getBlockNumber p) as [t|e] eqn:Ht.
  - rewrite (trackDeposits_run p accepts w t Ht). cbv zeta.
    set (s := start_cursor (lastProcessedBlock w) t).
    destruct (try_catch_log_frame (block_loop p accepts (Z.to_nat (t - s)) (s + 1) t)
                "Error tracking deposits:" (with_cursor s w)) as (D & T & C).
    unfold stored. rewrite D, T, C.
    replace (Z.to_nat (t - s)) with (Z.to_nat (t - (s + 1) + 1)) by (f_equal; lia).
    rewrite block_loop_as_list, seqZ_to_nat.
    destruct (process_blocks_spec p accepts (s + 1) (Z.to_nat (t - (s + 1) + 1)) (with_cursor s w) Hmap)
      as (k & Hk & Hf & Hn & Ck & [Dk Tk]); [simpl; lia|].
    exists k. rewrite Ck. replace (k - s) with (k - (s + 1) + 1) by lia.
    split_and!; [lia|lia| | |done|exact Dk|exact Tk].
    + intros b Hb. apply Hf. lia.
    + intros Hlt. apply Hn. lia.
  - unfold trackDeposits, try_catch, bind, lift. rewrite Ht. simpl.
    split; [done|by apply stored_nil].
Qed.

Lemma trackDeposits_refines_spec_witness :
  mapping_total (provider_of 105 blocks_2) /\
  tick_spec (provider_of 105 blocks_2) accept_all (world_at 100)
    (fst (trackDeposits (provider_of 105 blocks_2) accept_all (world_at 100))).
Proof.
  assert (H : mapping_total (provider_of 105 blocks_2)).
  { intros b blk tx Hb Hin. simpl in Hb. unfold blocks_2 in Hb.
    destruct (b =? 103); injection Hb as <-; vm_compute in Hin; intuition subst; discriminate. }
  split; [exact H|]. apply trackDeposits_refines_spec. exact H.
Defined.

(** C27. Without the assumption the code does not meet the specification:
    over a block whose first deposit saves and whose second lacks
    [gasPrice] (index.js 102 throws), the tick is not a tick of spec
    section 4.6: the block can be fetched, yet the cursor stays before it
    while its first record is stored. *)
Theorem trackDeposits_poisoned_not_spec :
  ~ tick_spec (provider_of 105 blocks_poisoned) accept_all (world_at 102)
      (fst (trackDeposits (provider_of 105 blocks_poisoned) accept_all (world_at 102))).
Proof.
  unfold tick_spec. simpl getBlockNumber. cbv zeta.
  intros (k & Hk & _ & Hn & Ck & _). vm_compute in Ck. subst k.
  apply Hn; [lia|]. eexists. reflexivity.
Qed.
