(* ===== verification/Scheduler.v ===== *)
(** * Scheduler: overlapping ticks of [setInterval]

    [setInterval(trackDeposits, 5 * 1000)] (index.js 132) starts a tick
    every five seconds whether or not the previous one has finished.  A
    tick is an [async] function: it runs synchronously up to an [await]
    (index.js 73, 87, 109), is suspended there until the provider or the
    database answers, and then runs on to the next [await].  Ticks in
    flight therefore interleave at their await points, sharing the global
    [lastProcessedBlock] and the collection.

    A suspended tick is a [pc] (where it waits, with its local variables);
    each code segment between two awaits is a computation of [M] built from
    the primitives of [Tracker]; [step] fires a new tick or resumes one
    in-flight tick with an answer.  [guarded_step] is the same machine with
    the single-flight guard of the spec (a new tick fires only when none is
    in flight). *)

From Stdlib Require Import ZArith String Lia.
From stdpp Require Import base list strings sorting.
From S2P Require Import Prelude Chain Filter JsDate Deposit Store Notifier Tracker.

Open Scope string_scope.
Open Scope list_scope.
Open Scope Z_scope.
Local Open Scope exn_scope.

(** Where a suspended tick waits, with the locals live at that point. *)
Inductive pc : Type :=
  | AwaitTip
  | AwaitBlock (latestBlockNumber currentBlock : Z)
  | AwaitSave (latestBlockNumber currentBlock : Z) (blockDetails : Block)
      (deposit : Transaction) (newDeposit : Deposit) (rest : list Transaction).

(** What the awaited promise resolves to (or rejects with). *)
Inductive answer : Type :=
  | TipAnswer (r : outcome js_error Z)
  | BlockAnswer (r : outcome js_error (option Block))
  | SaveAnswer (accepted : bool).

(** ** The segments of [trackDeposits] between two awaits *)

(** The loop test [currentBlock <= latestBlockNumber] and, when it holds,
    the call [getBlockWithTransactions(currentBlock)]. *)
Definition loop_head (latestBlockNumber currentBlock : Z) : M (option pc) :=
  ret (if currentBlock <=? latestBlockNumber
       then Some (AwaitBlock latestBlockNumber currentBlock) else None).

(** The rest of the deposit loop of a block: the next document is built
    and its save awaited, or, with no deposit left, the cursor is set and
    the block loop goes on. *)
Definition next_deposit (latestBlockNumber currentBlock : Z) (blockDetails : Block)
    (ds : list Transaction) : M (option pc) :=
  match ds with
  | [] => set_lastProcessedBlock currentBlock ;; loop_head latestBlockNumber (currentBlock + 1)
  | deposit :: rest =>
      newDeposit <- lift (new_deposit currentBlock blockDetails deposit) ;;
      ret (Some (AwaitSave latestBlockNumber currentBlock blockDetails deposit newDeposit rest))
  end.

(** After [await alchemy.core.getBlockNumber()] (index.js 73-85). *)
Definition on_tip (r : outcome js_error Z) : M (option pc) :=
  latestBlockNumber <- lift r ;;
  last <- gets lastProcessedBlock ;;
  (if last =? 0 then set_lastProcessedBlock (latestBlockNumber - 1) else ret tt) ;;
  start <- gets lastProcessedBlock ;;
  loop_head latestBlockNumber (start + 1).

(** After [await alchemy.core.getBlockWithTransactions(currentBlock)]
    (index.js 87-98). *)
Definition on_block (latestBlockNumber currentBlock : Z)
    (r : outcome js_error (option Block)) : M (option pc) :=
  blockDetails <- lift r ;;
  bt <- lift (transactions_of blockDetails) ;;
  next_deposit latestBlockNumber currentBlock (fst bt) (filter_deposits (snd bt)).

(** After [await newDeposit.save()] (index.js 109-121). *)
Definition on_save (latestBlockNumber currentBlock : Z) (blockDetails : Block)
    (deposit : Transaction) (newDeposit : Deposit) (rest : list Transaction)
    (accepted : bool) : M (option pc) :=
  try_catch
    (save_deposit (fun _ => accepted) newDeposit ;;
     log (LogInfo ("New deposit saved: " ++ tx_hash deposit)%string) ;;
     sendTelegramMessage (deposit_message currentBlock blockDetails deposit))
    (fun saveError => log (LogError "Error saving deposit to database:" saveError)) ;;
  next_deposit latestBlockNumber currentBlock blockDetails rest.

(** The segment a suspended tick runs when its promise settles with [a];
    [None] when [a] is not an answer to what it awaits. *)
Definition resume (k : pc) (a : answer) : option (M (option pc)) :=
  match k, a with
  | AwaitTip, TipAnswer r => Some (on_tip r)
  | AwaitBlock t cur, BlockAnswer r => Some (on_block t cur r)
  | AwaitSave t cur blk tx d rest, SaveAnswer ok => Some (on_save t cur blk tx d rest ok)
  | _, _ => None
  end.

(** A segment under the outer [try]/[catch] of index.js 69 and 126-128: an
    exception is logged and ends the tick. *)
Definition run_segment (m : M (option pc)) (w : World) : World * option pc :=
  match try_catch m (fun error => log (LogError "Error tracking deposits:" error) ;; ret None) w with
  | (w', Ok o) => (w', o)
  | (w', Throw _) => (w', None)
  end.

(** ** Configurations and steps *)

Record Config : Type := mkConfig {
  world : World;
  ticks : list pc
}.

Definition option_list {A} (o : option A) : list A :=
  match o with Some a => [a] | None => [] end.

(** [setInterval] fires (a new tick runs up to its first await), or one
    in-flight tick resumes with an answer and runs to its next await. *)
Inductive step : Config -> Config -> Prop :=
  | step_fire w ts :
      step (mkConfig w ts) (mkConfig w (ts ++ [AwaitTip]))
  | step_resume w ts1 k ts2 a m w' o :
      resume k a = Some m -> run_segment m w = (w', o) ->
      step (mkConfig w (ts1 ++ k :: ts2)) (mkConfig w' (ts1 ++ option_list o ++ ts2)).

(** The same machine with a single-flight guard: a tick fires only when
    no other tick is in flight. *)
Inductive guarded_step : Config -> Config -> Prop :=
  | guarded_fire w :
      guarded_step (mkConfig w []) (mkConfig w [AwaitTip])
  | guarded_resume w k a m w' o :
      resume k a = Some m -> run_segment m w = (w', o) ->
      guarded_step (mkConfig w [k]) (mkConfig w' (option_list o)).


(** ** Executable schedules *)

(** A schedule: fire a tick, or settle the promise tick [i] awaits. *)
Inductive event : Type :=
  | Fire
  | Settle (i : nat) (a : answer).

Definition exec_event (ev : event) (c : Config) : option Config :=
  match ev with
  | Fire => Some (mkConfig (world c) (ticks c ++ [AwaitTip]))
  | Settle i a =>
      match ticks c !! i with
      | None => None
      | Some k =>
          match resume k a with
          | None => None
          | Some m =>
              let '(w', o) := run_segment m (world c) in
              Some (mkConfig w' (take i (ticks c) ++ option_list o ++ drop (S i) (ticks c)))
          end
      end
  end.

Fixpoint exec (evs : list event) (c : Config) : option Config :=
  match evs with
  | [] => Some c
  | ev :: evs' => match exec_event ev c with Some c' => exec evs' c' | None => None end
  end.

Lemma exec_event_step ev c c' : exec_event ev c = Some c' -> step c c'.
Proof.
  destruct c as [w ts]. destruct ev as [|i a]; simpl.
  - intros [= <-]. constructor.
  - destruct (ts !! i) as [k|] eqn:Hk; [|done].
    destruct (resume k a) as [m|] eqn:Hm; [|done].
    destruct (run_segment m w) as [w' o] eqn:Hr. intros [= <-].
    rewrite <- (take_drop_middle ts i k Hk) at 1. by eapply step_resume.
Qed.

Lemma exec_star evs c c' : exec evs c = Some c' -> star step c c'.
Proof.
  revert c. induction evs as [|ev evs IH]; intros c; simpl.
  - intros [= <-]. constructor.
  - destruct (exec_event ev c) as [c1|] eqn:E; [|done].
    intros H. apply star_step with c1; [by apply (exec_event_step ev) | by apply IH].
Qed.

(** ** Overlapping ticks move the cursor back and save twice *)

Definition block_101 : Block := mkBlock 1700000000 [deposit_tx "0xaaa" 1].

Definition ok_block (b : Block) : answer := BlockAnswer (Ok (Some b)).

(** Tick A learns tip 102 and waits on block 101; tick B fires, learns tip
    105 and scans 101 to 105 to the end. *)
Definition overlap_first_part : list event :=
  [Fire; Settle 0 (TipAnswer (Ok 102));
   Fire; Settle 1 (TipAnswer (Ok 105));
   Settle 1 (ok_block block_101); Settle 1 (SaveAnswer true);
   Settle 1 (ok_block empty_block); Settle 1 (ok_block empty_block);
   Settle 1 (ok_block empty_block); Settle 1 (ok_block empty_block)].

(** Tick A's fetch of block 101 then settles, with the same block. *)
Definition overlap_second_part : list event :=
  [Settle 0 (ok_block block_101); Settle 0 (SaveAnswer true)].

(** C11. Without a single-flight guard the cursor is not monotone and
    saves are repeated: from cursor 100, two overlapping ticks that see the
    same chain reach a state where the cursor is 105 and then one where it
    is back at 101, with the deposit of block 101 stored twice. *)
Theorem overlapping_ticks_regress :
  exists c1 c2,
    star step (mkConfig (world_at 100) []) c1 /\ star step c1 c2 /\
    lastProcessedBlock (world c1) = 105 /\ lastProcessedBlock (world c2) = 101 /\
    count_hash "0xaaa" (deposits (world c2)) = 2%nat.
Proof.
  set (c1 := default (mkConfig init_world []) (exec overlap_first_part (mkConfig (world_at 100) []))).
  set (c2 := default (mkConfig init_world []) (exec overlap_second_part c1)).
  exists c1, c2. split_and!;
    [apply (exec_star overlap_first_part) | apply (exec_star overlap_second_part) | ..];
    vm_compute; reflexivity.
Qed.

(** ** Duplicates without a regression *)

(** The configurations a schedule goes through. *)
Fixpoint exec_trace (evs : list event) (c : Config) : option (list Config) :=
  match evs with
  | [] => Some []
  | ev :: evs' =>
      match exec_event ev c with
      | Some c' => cons c' <$> exec_trace evs' c'
      | None => None
      end
  end.

Lemma exec_trace_steps evs c cs :
  exec_trace evs c = Some cs ->
  forall i x y, (c :: cs) !! i = Some x -> (c :: cs) !! S i = Some y -> step x y.
Proof.
  revert c cs. induction evs as [|ev evs IH]; intros c cs; simpl.
  - intros [= <-] [|i] x y; simpl; [done|]. by rewrite lookup_nil.
  - destruct (exec_event ev c) as [c1|] eqn:E; [|done].
    destruct (exec_trace evs c1) as [cs1|] eqn:E1; simpl; [|done]. intros [= <-] [|i] x y.
    + simpl. intros [= <-] [= <-]. by apply (exec_event_step ev).
    + apply (IH c1 cs1 E1 i).
Qed.

(** Tick A waits on the save of the deposit of block 101; tick B fires,
    sees the same tip, fetches block 101 and issues the same save; then
    both saves settle. *)
Definition duplicate_schedule : list event :=
  [Fire; Settle 0 (TipAnswer (Ok 101)); Settle 0 (ok_block block_101);
   Fire; Settle 1 (TipAnswer (Ok 101)); Settle 1 (ok_block block_101);
   Settle 0 (SaveAnswer true); Settle 0 (SaveAnswer true)].

Definition duplicate_run : list Config :=
  mkConfig (world_at 100) [] :: default [] (exec_trace duplicate_schedule (mkConfig (world_at 100) [])).

(** ** The single-flight guard restores monotonicity *)

(** A suspended tick's next block is the one after the cursor. *)
Definition pc_at (c : Z) (k : pc) : Prop :=
  match k with
  | AwaitTip => True
  | AwaitBlock _ cur => cur = c + 1
  | AwaitSave _ cur _ _ _ _ => cur = c + 1
  end.

(** What a segment does to the cursor and where it suspends. *)
Definition segment_ok (lo hi : Z) (m : M (option pc)) (w : World) : Prop :=
  forall w' r, m w = (w', r) ->
    lo <= lastProcessedBlock w' <= hi /\
    (forall k, r = Ok (Some k) -> pc_at (lastProcessedBlock w') k).

Lemma loop_head_ok t cur w :
  lastProcessedBlock w = cur - 1 -> segment_ok (cur - 1) (cur - 1) (loop_head t cur) w.
Proof.
  intros Hw w' r [= <- <-]. split; [lia|]. intros k.
  destruct (cur <=? t); intros [= <-]; simpl; lia.
Qed.

Lemma next_deposit_ok t cur blk ds w :
  lastProcessedBlock w = cur - 1 -> segment_ok (cur - 1) cur (next_deposit t cur blk ds) w.
Proof.
  intros Hw w' r. destruct ds as [|tx rest]; cbn.
  - intros Hr. destruct (loop_head_ok t (cur + 1) (with_cursor cur w) ltac:(simpl; lia) w' r Hr).
    split; [lia|done].
  - destruct (new_deposit cur blk tx); intros [= <- <-]; split; try lia; [|done].
    intros k [= <-]. simpl. lia.
Qed.

Lemma on_block_ok t cur r0 w :
  lastProcessedBlock w = cur - 1 -> segment_ok (cur - 1) cur (on_block t cur r0) w.
Proof.
  intros Hw w' r. unfold on_block. destruct r0 as [[blk|]|e]; cbn;
    [apply next_deposit_ok; done | intros [= <- <-]; split; [lia|done]..].
Qed.

Lemma on_save_ok t cur blk tx d rest ok w :
  lastProcessedBlock w = cur - 1 -> segment_ok (cur - 1) cur (on_save t cur blk tx d rest ok) w.
Proof.
  intros Hw. unfold on_save, segment_ok. intros w' r.
  set (body := try_catch _ _).
  assert (Hb : preserves same_cursor body) by (unfold body; preserves_auto).
  specialize (Hb w). unfold same_cursor in Hb.
  unfold bind. destruct (body w) as [w1 [[]|e]]; simpl in Hb; [|intros [= <- <-]; split; [lia|done]].
  apply next_deposit_ok. lia.
Qed.

(** A resumed segment does not move a set cursor back and suspends at the
    block after the cursor. *)
Definition resumes_ok (w : World) (m : M (option pc)) : Prop :=
  forall w' r, m w = (w', r) ->
    (0 < lastProcessedBlock w -> lastProcessedBlock w <= lastProcessedBlock w') /\
    (forall k, r = Ok (Some k) -> pc_at (lastProcessedBlock w') k).

Lemma segment_resumes_ok lo hi m w :
  lastProcessedBlock w = lo -> segment_ok lo hi m w -> resumes_ok w m.
Proof. intros Hc Hm w' r Hr. destruct (Hm w' r Hr). split; [lia|done]. Qed.

Lemma on_tip_ok r0 w : resumes_ok w (on_tip r0).
Proof.
  intros w' r. unfold on_tip. destruct r0 as [t|e]; cbn; [|intros [= <- <-]; split; [lia|done]].
  destruct (Z.eqb_spec (lastProcessedBlock w) 0) as [H0|H0]; cbn.
  - intros Hr. destruct (loop_head_ok t (t - 1 + 1) (with_cursor (t - 1) w)
      ltac:(simpl; lia) w' r Hr). split; [lia|done].
  - intros Hr. destruct (loop_head_ok t (lastProcessedBlock w + 1) w ltac:(lia) w' r Hr).
    split; [lia|done].
Qed.

Lemma resume_ok k a m w :
  pc_at (lastProcessedBlock w) k -> resume k a = Some m -> resumes_ok w m.
Proof.
  destruct k as [|t cur|t cur blk tx d rest], a as [r0|r0|ok]; simpl; try discriminate;
    intros Hk [= <-].
  - apply on_tip_ok.
  - apply (segment_resumes_ok (cur - 1) cur); [lia|]. apply on_block_ok. lia.
  - apply (segment_resumes_ok (cur - 1) cur); [lia|]. apply on_save_ok. lia.
Qed.

Lemma run_segment_ok m w w' o :
  resumes_ok w m -> run_segment m w = (w', o) ->
  (0 < lastProcessedBlock w -> lastProcessedBlock w <= lastProcessedBlock w') /\
  (forall k, o = Some k -> pc_at (lastProcessedBlock w') k).
Proof.
  unfold run_segment, try_catch. intros Hm. destruct (m w) as [w1 r] eqn:E.
  destruct (Hm w1 r E) as [Hmono Hpc].
  destruct r as [o1|e]; simpl; intros [= <- <-].
  - split; [done|]. intros k ->. by apply Hpc.
  - split; [done|]. by intros k.
Qed.

(** At most one tick in flight, suspended at the block after the cursor. *)
Definition guard_inv (c : Config) : Prop :=
  match ticks c with
  | [] => True
  | [k] => pc_at (lastProcessedBlock (world c)) k
  | _ => False
  end.

Lemma guarded_step_inv c c' : guard_inv c -> guarded_step c c' -> guard_inv c'.
Proof.
  intros Hinv Hs. destruct Hs as [w|w k a m w' o Hm Hr]; [done|].
  destruct (run_segment_ok m w w' o (resume_ok k a m w Hinv Hm) Hr) as [_ Hpc].
  unfold guard_inv. simpl. destruct o as [k'|]; simpl; [by apply Hpc|done].
Qed.

Lemma guarded_step_monotone c c' :
  guard_inv c -> guarded_step c c' -> 0 < lastProcessedBlock (world c) ->
  lastProcessedBlock (world c) <= lastProcessedBlock (world c').
Proof.
  intros Hinv Hs. destruct Hs as [w|w k a m w' o Hm Hr]; simpl; [lia|].
  by apply (run_segment_ok m w w' o (resume_ok k a m w Hinv Hm) Hr).
Qed.

Lemma guarded_star_inv c c' : star guarded_step c c' -> guard_inv c -> guard_inv c'.
Proof. induction 1; eauto using guarded_step_inv. Qed.

(** From a configuration of the invariant, a cursor once positive never
    decreases along a guarded run. *)
Lemma guarded_star_monotone c c' :
  guard_inv c -> star guarded_step c c' -> 0 < lastProcessedBlock (world c) ->
  lastProcessedBlock (world c) <= lastProcessedBlock (world c').
Proof.
  intros Hinv Hrun. induction Hrun as [c|c1 c2 c3 Hs _ IH]; intros Hpos; [lia|].
  pose proof (guarded_step_monotone c1 c2 Hinv Hs Hpos).
  specialize (IH (guarded_step_inv c1 c2 Hinv Hs)). lia.
Qed.

(** C12. With the single-flight guard, along every run of the scheduler
    from an idle start, a cursor once positive never decreases, whatever
    the provider and the database answer. *)
Theorem guarded_cursor_monotone w c c' :
  star guarded_step (mkConfig w []) c -> star guarded_step c c' ->
  0 < lastProcessedBlock (world c) ->
  lastProcessedBlock (world c) <= lastProcessedBlock (world c').
Proof.
  intros Hreach. apply guarded_star_monotone. by apply (guarded_star_inv _ _ Hreach).
Qed.

Lemma guarded_cursor_monotone_witness :
  lastProcessedBlock (world (mkConfig (world_at 100) [])) <=
  lastProcessedBlock (world (mkConfig (mkWorld 101 [] [] []) [])).
Proof.
  apply (guarded_cursor_monotone (world_at 100)); [apply star_refl| |simpl; lia].
  eapply star_step; [apply guarded_fire|].
  eapply star_step; [eapply (guarded_resume _ AwaitTip (TipAnswer (Ok 101))); reflexivity|].
  eapply star_step;
    [eapply (guarded_resume _ (AwaitBlock 101 101) (ok_block empty_block)); reflexivity|].
  apply star_refl.
Defined.

(** ** One tick alone: the step machine refines [trackDeposits] *)

(** The configuration a segment leaves behind. *)
Definition seg_cfg (m : M (option pc)) (w : World) : Config :=
  let '(w', o) := run_segment m w in mkConfig w' (option_list o).

(** The answers a provider and a database give to the awaits. *)
Definition answer_of (p : Provider) (accepts : Deposit -> bool) (k : pc) : answer :=
  match k with
  | AwaitTip => TipAnswer (getBlockNumber p)
  | AwaitBlock _ cur => BlockAnswer (getBlockWithTransactions p cur)
  | AwaitSave _ _ _ _ d _ => SaveAnswer (accepts d)
  end.

Definition log_error (e : js_error) (w : World) : World :=
  fst (log (LogError "Error tracking deposits:" e) w).

Lemma run_segment_bind_ok {A} (b : M A) (k : A -> M (option pc)) w w1 x :
  b w = (w1, Ok x) -> run_segment (bind b k) w = run_segment (k x) w1.
Proof. unfold run_segment, try_catch, bind. by intros ->. Qed.

Lemma run_segment_throw (m : M (option pc)) w w1 e :
  m w = (w1, Throw e) -> run_segment m w = (log_error e w1, None).
Proof. unfold run_segment, try_catch. by intros ->. Qed.

Lemma run_segment_ret o w : run_segment (ret o) w = (w, o).
Proof. reflexivity. Qed.

Lemma seg_cfg_step m w k a m' :
  run_segment m w = (fst (run_segment m w), Some k) -> resume k a = Some m' ->
  guarded_step (seg_cfg m w) (seg_cfg m' (fst (run_segment m w))).
Proof.
  intros Hk Hm. unfold seg_cfg at 1. rewrite Hk. simpl.
  unfold seg_cfg. destruct (run_segment m' _) eqn:E. by eapply guarded_resume.
Qed.

(** The machine with one tick in flight whose awaits are answered by [p]
    and [accepts]. *)
Inductive solo_step (p : Provider) (accepts : Deposit -> bool) : Config -> Config -> Prop :=
  | solo_resume w k m w' o :
      resume k (answer_of p accepts k) = Some m -> run_segment m w = (w', o) ->
      solo_step p accepts (mkConfig w [k]) (mkConfig w' (option_list o)).

Lemma solo_step_guarded p accepts c c' : solo_step p accepts c c' -> guarded_step c c'.
Proof. destruct 1. by eapply guarded_resume. Qed.

Lemma solo_step_functional p accepts c c1 c2 :
  solo_step p accepts c c1 -> solo_step p accepts c c2 -> c1 = c2.
Proof.
  intros [w k m w1 o1 Hm1 Hr1] H2. inversion H2 as [w' k' m' w2 o2 Hm2 Hr2]; subst.
  rewrite Hm1 in Hm2. injection Hm2 as <-. rewrite Hr1 in Hr2. by injection Hr2 as <- <-.
Qed.

Lemma seg_cfg_solo p accepts m w k m' :
  snd (run_segment m w) = Some k -> resume k (answer_of p accepts k) = Some m' ->
  solo_step p accepts (seg_cfg m w) (seg_cfg m' (fst (run_segment m w))).
Proof.
  intros Hk Hm. unfold seg_cfg at 1. destruct (run_segment m w) as [w1 o] eqn:E.
  simpl in *. subst o. unfold seg_cfg. destruct (run_segment m' w1) eqn:E'.
  by eapply solo_resume.
Qed.

(** The body of the inner [try] with its [catch] always returns. *)
Lemma save_block_ok accepts d tx cur blk w :
  exists w', try_catch
      (save_deposit accepts d ;;
       log (LogInfo ("New deposit saved: " ++ tx_hash tx)%string) ;;
       sendTelegramMessage (deposit_message cur blk tx))
      (fun saveError => log (LogError "Error saving deposit to database:" saveError)) w
    = (w', Ok tt).
Proof.
  unfold try_catch, bind, save_deposit. destruct (save accepts d (deposits w)); by eexists.
Qed.

Lemma deposits_solo p accepts t cur blk ds w :
  star (solo_step p accepts) (seg_cfg (next_deposit t cur blk ds) w)
    (match process_deposits accepts cur blk ds w with
     | (w1, Ok _) => seg_cfg (next_deposit t cur blk []) w1
     | (w1, Throw e) => mkConfig (log_error e w1) []
     end).
Proof.
  revert w. induction ds as [|tx rest IH]; intros w; [apply star_refl|].
  assert (Hlift : forall A (o : outcome js_error A), lift o w = (w, o)) by done.
  cbn [process_deposits]. unfold process_deposit.
  destruct (new_deposit cur blk tx) as [d|e] eqn:E.
  - destruct (save_block_ok accepts d tx cur blk w) as [w2 Hw2].
    rewrite (bind_ok _ _ w w2 tt) by (rewrite (bind_ok _ _ w w d); [exact Hw2 | apply Hlift]).
    apply star_step with (seg_cfg (next_deposit t cur blk rest) w2); [|apply IH].
    assert (Hseg : seg_cfg (next_deposit t cur blk (tx :: rest)) w =
                   mkConfig w [AwaitSave t cur blk tx d rest]).
    { unfold seg_cfg, run_segment, try_catch, next_deposit, bind. by rewrite Hlift, E. }
    rewrite Hseg. unfold seg_cfg. destruct (run_segment (next_deposit t cur blk rest) w2) eqn:Er.
    eapply solo_resume; [reflexivity|]. rewrite <- Er.
    apply (run_segment_bind_ok _ (fun _ => next_deposit t cur blk rest) w w2 tt). exact Hw2.
  - cbn [bind lift].
    unfold seg_cfg. rewrite (run_segment_throw _ w w e); [apply star_refl|].
    unfold next_deposit, bind. by rewrite Hlift, E.
Qed.

(** [process_block] by the provider's answer. *)
Lemma process_block_unfold p accepts cur w :
  process_block p accepts cur w =
  match getBlockWithTransactions p cur with
  | Ok (Some blk) =>
      match process_deposits accepts cur blk (filter_deposits (block_transactions blk)) w with
      | (w1, Ok _) => (with_cursor cur w1, Ok tt)
      | (w1, Throw e) => (w1, Throw e)
      end
  | Ok None => (w, Throw (TypeError "Cannot read properties of null (reading 'transactions')"))
  | Throw e => (w, Throw e)
  end.
Proof.
  unfold process_block. destruct (getBlockWithTransactions p cur) as [[blk|]|e]; cbn [bind lift]; [|done..].
  simpl. unfold bind. by destruct (process_deposits _ _ _ _ w) as [w1 [[]|e]].
Qed.

Lemma seg_cfg_loop_head_done t cur w :
  t < cur -> seg_cfg (loop_head t cur) w = mkConfig w [].
Proof. intros H. unfold seg_cfg, loop_head. by rewrite (proj2 (Z.leb_gt _ _) H). Qed.

Lemma seg_cfg_loop_head_block t cur w :
  cur <= t -> seg_cfg (loop_head t cur) w = mkConfig w [AwaitBlock t cur].
Proof. intros H. unfold seg_cfg, loop_head. by rewrite (proj2 (Z.leb_le _ _) H). Qed.

Lemma loop_solo p accepts t n cur w :
  (Z.to_nat (t - cur + 1) <= n)%nat ->
  star (solo_step p accepts) (seg_cfg (loop_head t cur) w)
    (mkConfig (fst (try_catch (block_loop p accepts n cur t)
                     (fun e => log (LogError "Error tracking deposits:" e)) w)) []).
Proof.
  revert cur w. induction n as [|n IH]; intros cur w Hn.
  - rewrite seg_cfg_loop_head_done by lia. apply star_refl.
  - destruct (Z.leb_spec cur t) as [Hle|Hgt];
      [|rewrite seg_cfg_loop_head_done by lia; cbn [block_loop];
        rewrite (proj2 (Z.leb_gt _ _) Hgt); apply star_refl].
    rewrite seg_cfg_loop_head_block by done. cbn [block_loop].
    rewrite (proj2 (Z.leb_le _ _) Hle).
    pose proof (process_block_unfold p accepts cur w) as Hpb.
    destruct (getBlockWithTransactions p cur) as [[blk|]|e] eqn:G.
    + apply star_step with (seg_cfg (next_deposit t cur blk (filter_deposits (block_transactions blk))) w).
      { unfold seg_cfg. destruct (run_segment (next_deposit _ _ _ _) w) as [w' o] eqn:Er.
        eapply solo_resume; [simpl; by rewrite G | exact Er]. }
      eapply star_trans; [apply deposits_solo|].
      destruct (process_deposits accepts cur blk _ w) as [w1 [[]|e]] eqn:P.
      * rewrite (try_catch_bind_ok _ _ _ w (with_cursor cur w1) tt) by exact Hpb.
        apply (IH (cur + 1) (with_cursor cur w1)). lia.
      * rewrite (try_catch_bind_err _ _ _ w w1 e) by exact Hpb. apply star_refl.
    + apply star_step with (mkConfig (log_error (TypeError "Cannot read properties of null (reading 'transactions')") w) (option_list None));
        [eapply solo_resume; [simpl; by rewrite G | reflexivity]|].
      rewrite (try_catch_bind_err _ _ _ w w _) by (rewrite Hpb; done). apply star_refl.
    + apply star_step with (mkConfig (log_error e w) (option_list None));
        [eapply solo_resume; [simpl; by rewrite G | reflexivity]|].
      rewrite (try_catch_bind_err _ _ _ w w e) by (rewrite Hpb; done). apply star_refl.
Qed.

Lemma on_tip_segment p w t :
  getBlockNumber p = Ok t ->
  run_segment (on_tip (getBlockNumber p)) w =
  run_segment (loop_head t (start_cursor (lastProcessedBlock w) t + 1))
    (with_cursor (start_cursor (lastProcessedBlock w) t) w).
Proof.
  intros Ht. rewrite Ht. destruct w as [c docs tg lg]. unfold start_cursor. simpl.
  destruct c; reflexivity.
Qed.

Lemma solo_run_exists p accepts w :
  star (solo_step p accepts) (mkConfig w [AwaitTip]) (mkConfig (fst (trackDeposits p accepts w)) []).
Proof.
  destruct (getBlockNumber p) as [t|e] eqn:Ht.
  - rewrite (trackDeposits_run _ _ _ t Ht). simpl.
    set (c := start_cursor (lastProcessedBlock w) t).
    apply star_step with (seg_cfg (loop_head t (c + 1)) (with_cursor c w)); [|apply loop_solo; lia].
    unfold seg_cfg. destruct (run_segment (loop_head t (c + 1)) (with_cursor c w)) eqn:Er.
    eapply solo_resume; [reflexivity|]. by rewrite (on_tip_segment p w t Ht).
  - assert (fst (trackDeposits p accepts w) = log_error e w) as ->.
    { unfold trackDeposits, try_catch, bind, lift. by rewrite Ht. }
    apply star_one. change [] with (option_list (@None pc)).
    eapply solo_resume; [reflexivity|]. simpl. by rewrite Ht.
Qed.

(** One tick alone, its awaits answered by the provider and the
    database, is the function [trackDeposits] of [Tracker]: the
    step machine reaches an idle configuration, and the only one it can
    reach holds the world [trackDeposits] computes. *)
Lemma solo_run_refines_trackDeposits p accepts w c' :
  star (solo_step p accepts) (mkConfig w [AwaitTip]) c' /\ ticks c' = [] <->
  c' = mkConfig (fst (trackDeposits p accepts w)) [].
Proof.
  split.
  - intros [Hrun Hidle].
    apply (star_functional_final (solo_step p accepts) (fun c => ticks c = [])
             (mkConfig w [AwaitTip]) c' (mkConfig (fst (trackDeposits p accepts w)) []));
      [apply solo_step_functional | | done | done | apply solo_run_exists | done].
    intros x y Hx Hs. destruct Hs. discriminate.
  - intros ->. split; [apply solo_run_exists|done].
Qed.

(** C28. The guard is needed for the store, not only for the cursor:
    there is a run of two overlapping ticks along which the cursor never
    decreases, and which still stores the deposit of block 101 twice. *)
Theorem overlapping_ticks_duplicate_monotone :
  exists cs c,
    cs !! 0%nat = Some (mkConfig (world_at 100) []) /\ last cs = Some c /\
    (forall i x y, cs !! i = Some x -> cs !! S i = Some y -> step x y) /\
    Sorted Z.le (map (fun c => lastProcessedBlock (world c)) cs) /\
    count_hash "0xaaa" (deposits (world c)) = 2%nat.
Proof.
  exists duplicate_run, (default (mkConfig init_world []) (last duplicate_run)).
  split_and!; [reflexivity|vm_compute; reflexivity| |vm_compute; repeat (constructor || (intros ?; discriminate))|vm_compute; reflexivity].
  apply (exec_trace_steps duplicate_schedule). vm_compute. reflexivity.
Qed.
