(* ===== verification/Api.v ===== *)
(** * Api: the Express routes over the deposits collection

    [GET /api/deposits] (index.js 135-142) and [POST /api/deposits]
    (index.js 145-163), on the same [World] as [trackDeposits].  A route
    handler is a computation of [M] that returns the response it sends.

    The JSON body of a POST is cast by Mongoose to the schema's types when
    [new Deposit({...})] is built.  Mongoose is a library, so its casting is
    an input here: each field of the body is [Absent] (undefined in
    [req.body]), [Null] (JSON [null]), [Cast] to a value of its schema
    type, or [Uncastable] (a cast error, reported by [save] as a
    validation error).  Mongoose stores a [null] path as [null]; the
    documents of this model have no [null], so such a path is left out
    as an absent one is, which only the JSON of a GET answer could tell
    apart ([null] against no key). *)

From Stdlib Require Import ZArith String Lia.
From stdpp Require Import base list strings.
From S2P Require Import Prelude Chain JsDate Deposit Store Notifier Tracker.

Open Scope string_scope.
Open Scope list_scope.
Open Scope Z_scope.
Local Open Scope exn_scope.

(** A field of [req.body] after Mongoose's cast. *)
Inductive body_field (A : Type) : Type :=
  | Absent
  | Null
  | Cast (a : A)
  | Uncastable.
Arguments Absent {A}.
Arguments Null {A}.
Arguments Cast {A} a.
Arguments Uncastable {A}.

(** [const { blockNumber, blockTimestamp, fee, hash, pubkey } = req.body] *)
Record PostBody : Type := mkPostBody {
  body_blockNumber : body_field Z;
  body_blockTimestamp : body_field js_date;
  body_fee : body_field string;
  body_hash : body_field string;
  body_pubkey : body_field string
}.

(** The response a handler sends. *)
Inductive response : Type :=
  | RespDeposits (docs : list Deposit)   (* res.json(deposits) *)
  | RespDeposit (d : Deposit)            (* res.json(newDeposit) *)
  | RespError (status : Z) (body : string).

Definition field_value {A} (f : body_field A) : option A :=
  match f with Cast a => Some a | _ => None end.

Definition field_uncastable {A} (f : body_field A) : bool :=
  match f with Uncastable => true | _ => false end.

(** [new Deposit({ blockNumber, blockTimestamp, fee, hash, pubkey })]
    (index.js 149-155): the paths that cast, the others left out. *)
Definition post_doc (b : PostBody) : Deposit :=
  {| blockNumber := field_value (body_blockNumber b);
     blockTimestamp := field_value (body_blockTimestamp b);
     fee := field_value (body_fee b);
     hash := field_value (body_hash b);
     pubkey := field_value (body_pubkey b) |}.

(** [${hash}] of the raw [req.body.hash] in the log line of index.js
    158: a value that casts to a string prints as that string (Mongoose
    casts a primitive with its [toString], as the template literal
    does), [null] as ["null"], an absent field as ["undefined"].  An
    uncastable field never reaches the log line. *)
Definition body_text (f : body_field string) : string :=
  match f with
  | Cast s => s
  | Null => "null"
  | Absent | Uncastable => "undefined"
  end.

(** The first path whose cast failed, in schema order. *)
Definition cast_error (b : PostBody) : option string :=
  if field_uncastable (body_blockNumber b) then Some "blockNumber"
  else if field_uncastable (body_blockTimestamp b) then Some "blockTimestamp"
  else if field_uncastable (body_fee b) then Some "fee"
  else if field_uncastable (body_hash b) then Some "hash"
  else if field_uncastable (body_pubkey b) then Some "pubkey"
  else None.

(** [await newDeposit.save()] (index.js 156): a recorded cast error fails
    validation; otherwise the save of [Store]. *)
Definition save_post (accepts : Deposit -> bool) (b : PostBody) : M unit :=
  match cast_error b with
  | Some path => throw (ValidationError path)
  | None => save_deposit accepts (post_doc b)
  end.

(** [Deposit.find()] (index.js 137), which rejects when the database does. *)
Definition find_deposits (db_up : bool) : M (list Deposit) :=
  if db_up then gets (fun w => find (deposits w)) else throw (MongoError "find failed").

(** [app.get("/api/deposits", ...)] *)
Definition getDeposits (db_up : bool) : M response :=
  try_catch
    (deposits <- find_deposits db_up ;; ret (RespDeposits deposits))
    (fun error => ret (RespError 500 "Server error")).

(** [app.post("/api/deposits", ...)]: the document is answered, then the
    insertion is logged; any failure is logged and answered with 500. *)
Definition postDeposit (accepts : Deposit -> bool) (b : PostBody) : M response :=
  let newDeposit := post_doc b in
  try_catch
    (save_post accepts b ;;
     let r := RespDeposit newDeposit in
     log (LogInfo ("Manual deposit added: " ++ body_text (body_hash b))%string) ;;
     ret r)
    (fun error => log (LogError "Error adding manual deposit:" error) ;; ret (RespError 500 "Server error")).

(** ** Facts on the routes *)

Lemma save_post_ok accepts b w :
  cast_error b = None -> save_succeeds accepts (post_doc b) = true ->
  save_post accepts b w =
  (mkWorld (lastProcessedBlock w) (deposits w ++ [post_doc b]) (telegram w) (logs w), Ok tt).
Proof.
  intros Hc Hs. unfold save_post, save_deposit. rewrite Hc, save_spec, Hs. done.
Qed.

Lemma save_post_err accepts b w :
  cast_error b <> None \/ save_succeeds accepts (post_doc b) = false ->
  exists e, save_post accepts b w = (w, Throw e).
Proof.
  intros H. unfold save_post, save_deposit.
  destruct (cast_error b) as [path|]; [by eexists|].
  destruct H as [H|Hs]; [done|]. rewrite save_spec, Hs. by eexists.
Qed.

(** C15. A POST whose fields all cast and whose save goes through appends
    exactly the posted document to the collection and answers with it. *)
Theorem postDeposit_stores accepts b w :
  cast_error b = None -> save_succeeds accepts (post_doc b) = true ->
  deposits (fst (postDeposit accepts b w)) = deposits w ++ [post_doc b] /\
  snd (postDeposit accepts b w) = Ok (RespDeposit (post_doc b)).
Proof.
  intros Hc Hs. unfold postDeposit. by rewrite (try_catch_bind_ok _ _ _ w _ tt (save_post_ok accepts b w Hc Hs)).
Qed.

Definition sample_body : PostBody :=
  mkPostBody (Cast 103) (Cast (DateValue 1700000000000)) (Cast "1") (Cast "0xaaa") Absent.

Lemma postDeposit_stores_witness :
  deposits (fst (postDeposit accept_all sample_body init_world)) = deposits init_world ++ [post_doc sample_body] /\
  snd (postDeposit accept_all sample_body init_world) = Ok (RespDeposit (post_doc sample_body)).
Proof. apply postDeposit_stores; reflexivity. Defined.

(** C16. A POST with a field that does not cast, or whose save the
    database refuses, leaves the collection as it was, logs the error and
    answers 500 ["Server error"]. *)
Theorem postDeposit_failure accepts b w :
  cast_error b <> None \/ save_succeeds accepts (post_doc b) = false ->
  exists e,
    fst (postDeposit accepts b w) =
      mkWorld (lastProcessedBlock w) (deposits w) (telegram w)
        (logs w ++ [LogError "Error adding manual deposit:" e]) /\
    snd (postDeposit accepts b w) = Ok (RespError 500 "Server error").
Proof.
  intros H. destruct (save_post_err accepts b w H) as [e He]. exists e.
  unfold postDeposit. by rewrite (try_catch_bind_err _ _ _ w w e He).
Qed.

Definition bad_body : PostBody :=
  mkPostBody (Cast 103) Uncastable (Cast "1") (Cast "0xaaa") Absent.

Lemma postDeposit_failure_witness :
  exists e,
    fst (postDeposit accept_all bad_body init_world) =
      mkWorld (lastProcessedBlock init_world) (deposits init_world) (telegram init_world)
        (logs init_world ++ [LogError "Error adding manual deposit:" e]) /\
    snd (postDeposit accept_all bad_body init_world) = Ok (RespError 500 "Server error").
Proof. apply postDeposit_failure. left. discriminate. Defined.

(** The body [{}], or a request without a JSON body. *)
Definition empty_body : PostBody := mkPostBody Absent Absent Absent Absent Absent.

(** C17. The POST route checks nothing: an empty body stores a document
    with no field at all, which no deposit written by [trackDeposits]
    looks like ([wf_doc]), and answers it as a success. *)
Theorem postDeposit_empty_body w :
  deposits (fst (postDeposit accept_all empty_body w)) =
    deposits w ++ [mkDeposit None None None None None] /\
  snd (postDeposit accept_all empty_body w) = Ok (RespDeposit (mkDeposit None None None None None)) /\
  ~ wf_doc (mkDeposit None None None None None).
Proof.
  split_and!; [done|done|]. intros (? & ? & ? & ? & H & _). discriminate.
Qed.
