(* ===== verification/Frontend.v ===== *)
(** * Frontend: the table of [App.js]

    [App] (App.js 6-51) keeps the list of deposits in React state
    ([useState([])], line 7), fetches it once after the first render
    ([useEffect(..., [])], lines 10-12) with [fetchDeposits] (lines 14-21),
    and renders one table row per deposit keyed by its hash (lines 38-45).
    The JSON transport keeps a document's number and string fields (an
    absent field stays absent) and sends its date as [toJSON] text
    ([IsoDate]); a row's timestamp cell is
    [new Date(deposit.blockTimestamp)] of that JSON value.
    [toLocaleString] depends on the browser's locale and is not modelled:
    the cell holds the date.  The rendered page is the tree [render], and
    [read_table] reads the table's text back. *)

From Stdlib Require Import ZArith String DecimalString DecimalZ DecimalPos Lia.
From stdpp Require Import base list strings.
From S2P Require Import Prelude Chain JsDate IsoDate Deposit Store Notifier Tracker Api.

Open Scope string_scope.
Open Scope list_scope.
Local Open Scope exn_scope.

(** The component state [deposits]. *)
Record AppState : Type := mkAppState { app_deposits : list Deposit }.

(** [useState([])] *)
Definition initial_state : AppState := mkAppState [].

(** What [axios.get('http://localhost:5000/api/deposits')] settles with:
    the array of a 2xx answer, or a rejection (a non-2xx status or a
    network error). *)
Inductive get_result : Type :=
  | GetOk (data : list Deposit)
  | GetFailed.

(** The GET route's answer as axios delivers it. *)
Definition get_result_of (r : response) : get_result :=
  match r with
  | RespDeposits docs => GetOk docs
  | _ => GetFailed
  end.

(** [fetchDeposits]: [setDeposits(response.data)] on success; on failure
    [console.error] and the state is left as it was. *)
Definition fetchDeposits (r : get_result) (s : AppState) : AppState :=
  match r with
  | GetOk data => mkAppState data
  | GetFailed => s
  end.

(** A document's [blockTimestamp] in the JSON answer: absent, [null] (an
    invalid date) or the [toISOString] text. *)
Inductive json_date : Type :=
  | JAbsent
  | JNull
  | JString (s : string).

Definition json_timestamp (o : option js_date) : json_date :=
  match o with
  | None => JAbsent
  | Some dt => match toJSON dt with Some s => JString s | None => JNull end
  end.

(** [new Date(v)] of a JSON value (App.js 43): [undefined] gives an
    invalid date, [null] the epoch ([ToNumber(null)] is 0), a string is
    parsed. *)
Definition new_Date_of_json (v : json_date) : js_date :=
  match v with
  | JAbsent => InvalidDate
  | JNull => new_Date 0
  | JString s => parse_iso s
  end.

(** The cells of a row (App.js 39-44) and its [key]. *)
Record Row : Type := mkRow {
  row_key : option string;
  cell_blockNumber : option Z;
  cell_hash : option string;
  cell_fee : option string;
  cell_timestamp : js_date
}.

Definition row (deposit : Deposit) : Row :=
  {| row_key := hash deposit;
     cell_blockNumber := blockNumber deposit;
     cell_hash := hash deposit;
     cell_fee := fee deposit;
     cell_timestamp := new_Date_of_json (json_timestamp (blockTimestamp deposit)) |}.

(** [deposits.map((deposit) => <tr key={deposit.hash}> ... </tr>)] *)
Definition rows (s : AppState) : list Row := map row (app_deposits s).

(** ** The rendered page (App.js 23-50) *)

(** A rendered React node: text, an element with its attributes, [key]
    and children, or the text of [new Date(..).toLocaleString()], which
    depends on the browser's locale and is kept as the date it shows. *)
#[warnings="-register-all"]
Inductive node : Type :=
  | Text (s : string)
  | LocaleDate (d : js_date)
  | Elem (tag : string) (attrs : list (string * string)) (key : option string) (children : list node).

(** [{n}] for a number that may be undefined: [String(n)], or nothing. *)
Definition number_text (o : option Z) : list node :=
  match o with Some n => [Text (decimal n)] | None => [] end.

(** [{s}] for a string that may be undefined. *)
Definition string_text (o : option string) : list node :=
  match o with Some s => [Text s] | None => [] end.

Definition td (children : list node) : node := Elem "td" [] None children.

(** [<tr key={deposit.hash}> <td>..</td> x4 </tr>] (App.js 39-44). *)
Definition row_elem (r : Row) : node :=
  Elem "tr" [] (row_key r)
    [td (number_text (cell_blockNumber r)); td (string_text (cell_hash r));
     td (string_text (cell_fee r)); td [LocaleDate (cell_timestamp r)]].

Definition header_cells : list string := ["Block Number"; "Transaction Hash"; "Fee"; "Timestamp"].

(** The JSX returned by [App] (App.js 23-50). *)
Definition render (s : AppState) : node :=
  Elem "div" [("className", "App")] None
    [Elem "header" [("className", "App-header")] None
      [Elem "h1" [] None [Text "Ethereum Deposit Tracker"];
       Elem "h2" [] None [Text "Deposits"];
       Elem "table" [] None
         [Elem "thead" [] None
            [Elem "tr" [] None (map (fun h => Elem "th" [] None [Text h]) header_cells)];
          Elem "tbody" [] None (map row_elem (rows s))]]].

(** Reading the page back: the rows of the table body, and of each row the
    block number, hash and fee cells as text. *)
Definition children (n : node) : list node :=
  match n with Elem _ _ _ cs => cs | _ => [] end.

Definition read_text (cs : list node) : option (option string) :=
  match cs with [] => Some None | [Text s] => Some (Some s) | _ => None end.

Definition read_number (cs : list node) : option (option Z) :=
  match cs with
  | [] => Some None
  | [Text s] => option_map (fun i => Some (Z.of_int i)) (NilZero.int_of_string s)
  | _ => None
  end.

Definition read_row (n : node) : option (option Z * option string * option string) :=
  match children n with
  | [c1; c2; c3; _] =>
      b ← read_number (children c1); h ← read_text (children c2); f ← read_text (children c3);
      Some (b, h, f)
  | _ => None
  end.

Definition table_body (n : node) : option (list node) :=
  match n with
  | Elem _ _ _ [Elem _ _ _ [_; _; Elem _ _ _ [_; Elem _ _ _ trs]]] => Some trs
  | _ => None
  end.

Definition read_table (n : node) : option (list (option Z * option string * option string)) :=
  table_body n ≫= mapM read_row.

(** The state after the effect of the first render has run with the
    answer [r]. *)
Definition app_after_mount (r : get_result) : AppState := fetchDeposits r initial_state.

Lemma decimal_nonnil n : Z.to_int n <> Decimal.Pos Decimal.Nil /\ Z.to_int n <> Decimal.Neg Decimal.Nil.
Proof.
  destruct n as [|p|p]; simpl; [done|..];
    split; intros [= H]; by apply (DecimalPos.Unsigned.to_uint_nonnil p).
Qed.

(** The text React shows for a number parses back to it. *)
Lemma read_number_text o : read_number (number_text o) = Some o.
Proof.
  destruct o as [n|]; [|done]. simpl. unfold decimal.
  destruct (decimal_nonnil n) as [H1 H2].
  rewrite (NilZero.isi _ H1 H2). simpl. by rewrite DecimalZ.of_to.
Qed.

Lemma read_text_string o : read_text (string_text o) = Some o.
Proof. by destruct o. Qed.

Lemma read_row_elem d : read_row (row_elem (row d)) = Some (blockNumber d, hash d, fee d).
Proof.
  unfold read_row. cbn [children row_elem td]. by rewrite read_number_text, !read_text_string.
Qed.

(** C23. The rendered table shows each stored document's block number,
    hash and fee so that they read back exactly from the cells' text, in
    the order of the state (absent fields as empty cells). *)
Theorem render_roundtrip s :
  read_table (render s) = Some (map (fun d => (blockNumber d, hash d, fee d)) (app_deposits s)).
Proof.
  destruct s as [docs]. unfold read_table, render, rows. cbn [table_body mbind option_bind app_deposits].
  induction docs as [|d docs IH]; [done|]. cbn [map mapM]. rewrite read_row_elem, IH. done.
Qed.


(** The date of [new Date(t)], sent as JSON and rebuilt by the front end,
    is the same date. *)
Lemma json_timestamp_new_Date x :
  new_Date x <> InvalidDate -> new_Date_of_json (json_timestamp (Some (new_Date x))) = new_Date x.
Proof.
  intros Hv. destruct (new_Date x) as [t|] eqn:E; [|done].
  apply new_Date_in_range in E. simpl. by apply parse_toISOString.
Qed.

(** C24. Back end to front end: every document a tick stores is shown by
    the front end's table with the very date the back end stored, after
    its JSON serialisation ([toJSON]) and [new Date(..)] in the browser. *)
Theorem trackDeposits_dates_displayed p accepts w :
  exists new, deposits (fst (trackDeposits p accepts w)) = deposits w ++ new /\
              Forall (fun d => Some (cell_timestamp (row d)) = blockTimestamp d) new.
Proof.
  apply trackDeposits_stores_only. intros c blk tx d Hd Hv.
  unfold new_deposit in Hd. destruct (tx_gasPrice tx); [|done]. injection Hd as <-.
  unfold validate in Hv. cbn [row cell_timestamp blockTimestamp] in *.
  rewrite json_timestamp_new_Date; [done|].
  intros E. by rewrite E in Hv.
Qed.
