(* ===== verification/Server.v ===== *)
(** * Server: the HTTP routes interleaved with the ticks

    The Node process runs the ticks of [setInterval] (index.js 132) and
    the handlers of the two Express routes (index.js 135-163) on one
    thread: each runs up to an [await] and is resumed when its promise
    settles.  A route handler has one await, [Deposit.find()] (line 137) or
    [newDeposit.save()] (line 156); the code before it reads nothing of the
    shared state and writes nothing, so a request is pending from its
    arrival until that promise settles, and then runs the handler of [Api]
    ([getDeposits] or [postDeposit]) with the database's answer.

    [server_step tick] is the machine of [Scheduler] for the ticks
    ([step], or [guarded_step] with the single-flight guard) extended with
    arriving and settling requests.  The theorems: requests are invisible
    to the tracker (every server run projects to a run of the ticks alone
    with the same cursor, in-flight ticks and messages), so the guard's
    monotone cursor survives any HTTP traffic; and reads are monotone. *)

From Stdlib Require Import ZArith String Lia.
From stdpp Require Import base list strings.
From S2P Require Import Prelude Chain Filter JsDate Deposit Store Notifier Tracker Scheduler Api.

Open Scope string_scope.
Open Scope list_scope.
Open Scope Z_scope.
Local Open Scope exn_scope.

(** ** What the tracker sees of the world *)

(** Two worlds the tracker cannot tell apart: same cursor and same
    messages; the collection and the log may differ. *)
Definition agree (w1 w2 : World) : Prop :=
  lastProcessedBlock w1 = lastProcessedBlock w2 /\ telegram w1 = telegram w2.

#[export] Instance agree_equivalence : Equivalence agree.
Proof.
  split.
  - done.
  - intros w1 w2 [H1 H2]. by split.
  - intros w1 w2 w3 [H1 H2] [H3 H4]. split; congruence.
Qed.

Lemma set_lastProcessedBlock_respects n : respects agree (set_lastProcessedBlock n).
Proof. apply modify_respects. intros w1 w2 [_ H]. by split. Qed.

Lemma log_respects e : respects agree (log e).
Proof. apply modify_respects. intros w1 w2 H. apply H. Qed.

Lemma sendTelegramMessage_respects m : respects agree (sendTelegramMessage m).
Proof. apply modify_respects. intros w1 w2 [H1 H2]. split; simpl; congruence. Qed.

(** Whether a save goes through does not depend on the documents stored. *)
Lemma save_deposit_respects accepts d : respects agree (save_deposit accepts d).
Proof.
  intros w1 w2 H. unfold save_deposit. rewrite !save_spec.
  destruct (save_succeeds accepts d); simpl; [split; [done|apply H]|done].
Qed.

Lemma gets_cursor_respects : respects (E:=js_error) agree (gets lastProcessedBlock).
Proof. apply gets_respects. by intros w1 w2 [H _]. Qed.

#[export] Hint Resolve set_lastProcessedBlock_respects log_respects
  sendTelegramMessage_respects save_deposit_respects gets_cursor_respects : exn_resp.

(** The routes write the collection and the log only. *)
Lemma log_agree e : preserves agree (log e).
Proof. done. Qed.

Lemma save_deposit_agree accepts d : preserves agree (save_deposit accepts d).
Proof. intros w. unfold save_deposit. by destruct (save accepts d (deposits w)). Qed.

#[export] Hint Resolve log_agree save_deposit_agree : exn_pres.

(** ** The segments of a tick see the world only up to [agree] *)

Lemma next_deposit_respects t cur blk ds : respects agree (next_deposit t cur blk ds).
Proof. destruct ds; unfold next_deposit, loop_head; respects_auto. Qed.

#[export] Hint Resolve next_deposit_respects : exn_resp.

Lemma resume_respects k a m : resume k a = Some m -> respects agree m.
Proof.
  destruct k, a; intros [= <-]; unfold on_tip, on_block, on_save, loop_head; respects_auto.
Qed.

Lemma run_segment_agree m w1 w2 :
  respects agree m -> agree w1 w2 ->
  snd (run_segment m w1) = snd (run_segment m w2) /\
  agree (fst (run_segment m w1)) (fst (run_segment m w2)).
Proof.
  intros Hm H. unfold run_segment.
  assert (Ht : respects agree
    (try_catch m (fun error => log (LogError "Error tracking deposits:" error) ;; ret None)))
    by respects_auto.
  destruct (Ht w1 w2 H) as [Ho Hq].
  destruct (try_catch _ _ w1) as [w1' o], (try_catch _ _ w2) as [w2' o']; simpl in *.
  subst o'. by destruct o.
Qed.

(** A resumed segment run from an agreeing world settles the same way. *)
Lemma resume_agree k a m w w' o w2 :
  resume k a = Some m -> run_segment m w = (w', o) -> agree w w2 ->
  exists w2', run_segment m w2 = (w2', o) /\ agree w' w2'.
Proof.
  intros Hm Hr H. destruct (run_segment_agree m w w2 (resume_respects k a m Hm) H) as [Ho Hq].
  rewrite Hr in Ho, Hq. destruct (run_segment m w2) as [w2' o2]. simpl in *.
  subst o2. by exists w2'.
Qed.

(** A step of the ticks from a world can be replayed from any world that
    agrees with it, with the same ticks before and after. *)
Lemma step_agree c1 c1' w2 :
  step c1 c1' -> agree (world c1) w2 ->
  exists w2', step (mkConfig w2 (ticks c1)) (mkConfig w2' (ticks c1')) /\ agree (world c1') w2'.
Proof.
  intros Hs H. destruct Hs as [w ts|w ts1 k ts2 a m w' o Hm Hr].
  - exists w2. split; [constructor|done].
  - destruct (resume_agree k a m w w' o w2 Hm Hr H) as (w2' & E2 & Hq).
    exists w2'. split; [by eapply step_resume|done].
Qed.

Lemma guarded_step_agree c1 c1' w2 :
  guarded_step c1 c1' -> agree (world c1) w2 ->
  exists w2', guarded_step (mkConfig w2 (ticks c1)) (mkConfig w2' (ticks c1')) /\
              agree (world c1') w2'.
Proof.
  intros Hs H. destruct Hs as [w|w k a m w' o Hm Hr].
  - exists w2. split; [constructor|done].
  - destruct (resume_agree k a m w w' o w2 Hm Hr H) as (w2' & E2 & Hq).
    exists w2'. split; [by eapply guarded_resume|done].
Qed.

(** ** Requests and the server machine *)

(** A request to one of the two routes (index.js 135 and 145). *)
Inductive request : Type :=
  | GetRequest
  | PostRequest (b : PostBody).

(** A handler suspended at its await: [Deposit.find()] (line 137) or
    [newDeposit.save()] (line 156). *)
Inductive pending : Type :=
  | AwaitFind
  | AwaitPostSave (b : PostBody).

(** What the database answers: whether the find succeeds, whether the
    write is acknowledged. *)
Inductive req_answer : Type :=
  | FindAnswer (db_up : bool)
  | PostSaveAnswer (accepted : bool).

(** The handler runs, up to [Deposit.find()] or [newDeposit.save()],
    without touching the shared state. *)
Definition arrive (r : request) : pending :=
  match r with
  | GetRequest => AwaitFind
  | PostRequest b => AwaitPostSave b
  end.

(** The handler, run when its promise settles with [a]; [None] when [a]
    does not answer what it awaits. *)
Definition handle (q : pending) (a : req_answer) : option (M response) :=
  match q, a with
  | AwaitFind, FindAnswer db_up => Some (getDeposits db_up)
  | AwaitPostSave b, PostSaveAnswer ok => Some (postDeposit (fun _ => ok) b)
  | _, _ => None
  end.

(** The response sent; an exception escaping an [async] handler sends
    none (both handlers catch everything, so this does not happen). *)
Definition run_handler (m : M response) (w : World) : World * option response :=
  match m w with
  | (w', Ok r) => (w', Some r)
  | (w', Throw _) => (w', None)
  end.

Record Server : Type := mkServer {
  srv_world : World;
  srv_ticks : list pc;
  srv_pending : list pending;
  srv_sent : list response
}.

Section Machine.
Variable tick : Config -> Config -> Prop.

(** A step of the ticks, a request that arrives, or a pending request
    whose promise settles. *)
Inductive server_step : Server -> Server -> Prop :=
  | srv_tick w ts w' ts' qs out :
      tick (mkConfig w ts) (mkConfig w' ts') ->
      server_step (mkServer w ts qs out) (mkServer w' ts' qs out)
  | srv_arrive w ts qs out r :
      server_step (mkServer w ts qs out) (mkServer w ts (qs ++ [arrive r]) out)
  | srv_respond w ts qs1 q qs2 out a m w' o :
      handle q a = Some m -> run_handler m w = (w', o) ->
      server_step (mkServer w ts (qs1 ++ q :: qs2) out)
                  (mkServer w' ts (qs1 ++ qs2) (out ++ option_list o)).
End Machine.

(** The ticks of a server configuration. *)
Definition project (s : Server) : Config := mkConfig (srv_world s) (srv_ticks s).

(** ** Requests are invisible to the tracker *)

Lemma getDeposits_agree db_up : preserves agree (getDeposits db_up).
Proof. unfold getDeposits, find_deposits. preserves_auto. Qed.

Lemma postDeposit_agree accepts b : preserves agree (postDeposit accepts b).
Proof. unfold postDeposit, save_post. destruct (cast_error b); preserves_auto. Qed.

Lemma handle_agree q a m w : handle q a = Some m -> agree w (fst (run_handler m w)).
Proof.
  intros Hm. assert (H : preserves agree m)
    by (destruct q, a; simplify_eq/=; auto using getDeposits_agree, postDeposit_agree).
  specialize (H w). unfold run_handler. by destruct (m w) as [w' []].
Qed.

Section Projection.
Variable tick : Config -> Config -> Prop.
Hypothesis tick_agree : forall c1 c1' w2,
  tick c1 c1' -> agree (world c1) w2 ->
  exists w2', tick (mkConfig w2 (ticks c1)) (mkConfig w2' (ticks c1')) /\ agree (world c1') w2'.

(** Erasing the requests of a server run leaves a run of the ticks from
    any agreeing world, to a world that agrees with the server's. *)
Lemma server_star_project s s' w :
  star (server_step tick) s s' -> agree (srv_world s) w ->
  exists w', star tick (mkConfig w (srv_ticks s)) (mkConfig w' (srv_ticks s')) /\
             agree (srv_world s') w'.
Proof.
  intros Hrun. revert w. induction Hrun as [s|s1 s2 s3 Hs _ IH]; intros w H.
  - by exists w; split; [apply star_refl|].
  - destruct Hs as [w1 ts w1' ts' qs out Ht|w1 ts qs out r|w1 ts qs1 q qs2 out a m w1' o Hm Hr].
    + destruct (tick_agree _ _ w Ht H) as (w2 & Ht2 & H2).
      destruct (IH w2 H2) as (w3 & Hrun3 & H3). exists w3. split; [|done].
      eapply star_step; [exact Ht2|exact Hrun3].
    + by apply IH.
    + apply IH. simpl. etrans; [symmetry|exact H].
      pose proof (handle_agree q a m w1 Hm) as Ha. by rewrite Hr in Ha.
Qed.
End Projection.

(** C20. Requests are invisible to the tracker: every run of the server,
    with GET and POST requests arriving and settling between any two
    awaits of the ticks, is, for the in-flight ticks, the cursor and the
    Telegram messages, a run of the ticks alone (the scheduler of
    [Scheduler]) from the same start. *)
Theorem server_runs_project s s' :
  star (server_step step) s s' ->
  exists w', star step (project s) (mkConfig w' (srv_ticks s')) /\
             lastProcessedBlock w' = lastProcessedBlock (srv_world s') /\
             telegram w' = telegram (srv_world s').
Proof.
  intros H. destruct (server_star_project step step_agree s s' (srv_world s) H ltac:(done))
    as (w' & R & [A1 A2]).
  exists w'. by split_and!.
Qed.

Definition sample_post : request := PostRequest sample_body.

Lemma guard_inv_agree c w : agree (world c) w -> guard_inv c -> guard_inv (mkConfig w (ticks c)).
Proof.
  intros [Hc _]. unfold guard_inv. simpl. rewrite <- Hc. by destruct (ticks c) as [|? []].
Qed.

(** C21. With the single-flight guard, a cursor once positive never
    decreases along any run of the server from an idle start, whatever
    requests arrive, whatever the database answers them, and wherever
    they interleave with the awaits of the tick. *)
Theorem guarded_server_cursor_monotone w s s' :
  star (server_step guarded_step) (mkServer w [] [] []) s ->
  star (server_step guarded_step) s s' ->
  0 < lastProcessedBlock (srv_world s) ->
  lastProcessedBlock (srv_world s) <= lastProcessedBlock (srv_world s').
Proof.
  intros Hreach Hrun Hpos.
  destruct (server_star_project guarded_step guarded_step_agree _ _ w Hreach ltac:(done))
    as (w1 & R1 & A1).
  apply guarded_star_inv in R1; [|done].
  apply (guard_inv_agree _ (srv_world s)) in R1; [|by symmetry].
  destruct (server_star_project guarded_step guarded_step_agree _ _ (srv_world s) Hrun ltac:(done))
    as (w2 & R2 & [A2 _]).
  rewrite A2. exact (guarded_star_monotone _ _ R1 R2 Hpos).
Qed.

Lemma guarded_server_cursor_monotone_witness :
  lastProcessedBlock (srv_world (mkServer (world_at 100) [] [] [])) <=
  lastProcessedBlock (srv_world (mkServer (world_at 100) [] [AwaitFind] [])).
Proof.
  apply (guarded_server_cursor_monotone (world_at 100)); [apply star_refl| |simpl; lia].
  apply star_one. apply (srv_arrive guarded_step (world_at 100) [] [] [] GetRequest).
Defined.

(** ** Reads are monotone *)

Lemma next_deposit_appends t cur blk ds : preserves appends (next_deposit t cur blk ds).
Proof. destruct ds; unfold next_deposit, loop_head; preserves_auto. Qed.

#[export] Hint Resolve next_deposit_appends : exn_pres.

Lemma run_segment_appends k a m w :
  resume k a = Some m -> appends w (fst (run_segment m w)).
Proof.
  intros Hm. assert (H : preserves appends
    (try_catch m (fun error => log (LogError "Error tracking deposits:" error) ;; ret None))).
  { destruct k, a; simplify_eq/=; unfold on_tip, on_block, on_save, loop_head; preserves_auto. }
  specialize (H w). unfold run_segment. by destruct (try_catch _ _ w) as [w' []].
Qed.

Lemma step_appends c c' : step c c' -> appends (world c) (world c').
Proof.
  destruct 1 as [w ts|w ts1 k ts2 a m w' o Hm Hr]; [done|].
  simpl. pose proof (run_segment_appends k a m w Hm) as H. by rewrite Hr in H.
Qed.

Lemma handle_appends q a m w : handle q a = Some m -> appends w (fst (run_handler m w)).
Proof.
  intros Hm. assert (H : preserves appends m).
  { destruct q, a; simplify_eq/=; unfold getDeposits, find_deposits, postDeposit, save_post;
      [|destruct (cast_error _)]; preserves_auto. }
  specialize (H w). unfold run_handler. by destruct (m w) as [w' []].
Qed.

(** A handler that answers a list of documents is a GET with the database
    up: it answers the whole collection and writes nothing. *)
Lemma handle_reads q a m w w' d :
  handle q a = Some m -> run_handler m w = (w', Some (RespDeposits d)) -> w' = w /\ d = deposits w.
Proof.
  destruct q as [|b], a as [up|ok]; intros Hm; simplify_eq/=; unfold run_handler.
  - unfold getDeposits, find_deposits, try_catch, bind. by destruct up; intros; simplify_eq/=.
  - unfold postDeposit, try_catch, bind.
    destruct (save_post _ b w) as [w1 [[]|e]]; simpl; intros; simplify_eq.
Qed.

(** Every answered list is a prefix of the collection, and of every list
    answered after it. *)
Definition reads_inv (s : Server) : Prop :=
  (forall i j d1 d2, srv_sent s !! i = Some (RespDeposits d1) ->
     srv_sent s !! j = Some (RespDeposits d2) -> (i < j)%nat -> d1 `prefix_of` d2) /\
  (forall i d, srv_sent s !! i = Some (RespDeposits d) -> d `prefix_of` deposits (srv_world s)).

Lemma reads_inv_grow w w' ts ts' qs qs' out :
  reads_inv (mkServer w ts qs out) -> appends w w' -> reads_inv (mkServer w' ts' qs' out).
Proof.
  intros [H1 H2] [Ha _]. split; [exact H1|]. intros i d Hi. etrans; [exact (H2 i d Hi)|exact Ha].
Qed.

Lemma reads_inv_snoc w ts qs out r :
  reads_inv (mkServer w ts qs out) -> (forall d, r = RespDeposits d -> d = deposits w) ->
  reads_inv (mkServer w ts qs (out ++ [r])).
Proof.
  intros [H1 H2] Hr. simpl in H1, H2. split; simpl.
  - intros i j d1 d2 Hi%lookup_snoc_Some Hj%lookup_snoc_Some Hij.
    destruct Hi as [[Hi Hi']|[Hi Hi']], Hj as [[Hj Hj']|[Hj Hj']]; try lia.
    + exact (H1 i j d1 d2 Hi' Hj' Hij).
    + rewrite (Hr d2 Hj'). exact (H2 i d1 Hi').
  - intros i d Hi%lookup_snoc_Some. destruct Hi as [[_ Hi]|[_ Hi]]; [exact (H2 i d Hi)|].
    by rewrite (Hr d Hi).
Qed.

Lemma server_step_reads s s' : server_step step s s' -> reads_inv s -> reads_inv s'.
Proof.
  destruct 1 as [w ts w' ts' qs out Ht|w ts qs out r|w ts qs1 q qs2 out a m w' o Hm Hr]; intros H.
  - apply (reads_inv_grow w w' ts ts' qs qs out H). exact (step_appends _ _ Ht).
  - exact (reads_inv_grow w w ts ts qs _ out H ltac:(done)).
  - pose proof (handle_appends q a m w Hm) as Ha. rewrite Hr in Ha.
    pose proof (reads_inv_grow w w' ts ts (qs1 ++ q :: qs2) (qs1 ++ qs2) out H Ha) as H'.
    destruct o as [r|]; simpl; [|by rewrite app_nil_r].
    apply reads_inv_snoc; [exact H'|]. intros d ->. by destruct (handle_reads q a m w w' d Hm Hr) as [-> ->].
Qed.

(** C22. Monotone reads: along any run of the server from an idle start,
    with overlapping ticks and requests interleaved at any await, a list
    of deposits answered by [GET /api/deposits] is a prefix of every list
    answered after it: no document is ever lost or reordered. *)
Theorem server_monotonic_reads w s i j d1 d2 :
  star (server_step step) (mkServer w [] [] []) s ->
  srv_sent s !! i = Some (RespDeposits d1) -> srv_sent s !! j = Some (RespDeposits d2) ->
  (i < j)%nat -> d1 `prefix_of` d2.
Proof.
  intros Hrun. enough (H : reads_inv s) by apply H.
  assert (H0 : reads_inv (mkServer w [] [] [])) by (split; simpl; intros; by rewrite lookup_nil in *).
  clear -Hrun H0. induction Hrun as [s|s1 s2 s3 Hs _ IH]; [done|].
  apply IH. exact (server_step_reads _ _ Hs H0).
Qed.

(** ** Executable schedules of the server *)

Inductive server_event : Type :=
  | STick (ev : event)
  | SArrive (r : request)
  | SRespond (i : nat) (a : req_answer).

Definition exec_server_event (ev : server_event) (s : Server) : option Server :=
  match ev with
  | STick e =>
      match exec_event e (project s) with
      | Some c => Some (mkServer (world c) (ticks c) (srv_pending s) (srv_sent s))
      | None => None
      end
  | SArrive r => Some (mkServer (srv_world s) (srv_ticks s) (srv_pending s ++ [arrive r]) (srv_sent s))
  | SRespond i a =>
      match srv_pending s !! i with
      | None => None
      | Some q =>
          match handle q a with
          | None => None
          | Some m =>
              let '(w', o) := run_handler m (srv_world s) in
              Some (mkServer w' (srv_ticks s) (take i (srv_pending s) ++ drop (S i) (srv_pending s))
                      (srv_sent s ++ option_list o))
          end
      end
  end.

Fixpoint exec_server (evs : list server_event) (s : Server) : option Server :=
  match evs with
  | [] => Some s
  | ev :: evs' => match exec_server_event ev s with Some s' => exec_server evs' s' | None => None end
  end.

Lemma exec_server_event_step ev s s' : exec_server_event ev s = Some s' -> server_step step s s'.
Proof.
  destruct s as [w ts qs out]. destruct ev as [e|r|i a]; simpl; unfold project; simpl.
  - destruct (exec_event e (mkConfig w ts)) as [[w' ts']|] eqn:E; [|done]. intros [= <-].
    constructor. by apply (exec_event_step e).
  - intros [= <-]. constructor.
  - destruct (qs !! i) as [q|] eqn:Hq; [|done]. destruct (handle q a) as [m|] eqn:Hm; [|done].
    destruct (run_handler m w) as [w' o] eqn:Hr. intros [= <-].
    rewrite <- (take_drop_middle qs i q Hq) at 1. by eapply srv_respond.
Qed.

Lemma exec_server_star evs s s' : exec_server evs s = Some s' -> star (server_step step) s s'.
Proof.
  revert s. induction evs as [|ev evs IH]; intros s; simpl.
  - intros [= <-]. constructor.
  - destruct (exec_server_event ev s) as [s1|] eqn:E; [|done].
    intros H. apply star_step with s1; [by apply (exec_server_event_step ev) | by apply IH].
Qed.

(** A GET, a POST of [sample_body] in the middle of a tick's scan of a
    block, then a second GET. *)
Definition reads_schedule : list server_event :=
  [SArrive GetRequest; SRespond 0 (FindAnswer true);
   STick Fire; STick (Settle 0 (TipAnswer (Ok 101)));
   SArrive sample_post; STick (Settle 0 (ok_block block_101));
   SRespond 0 (PostSaveAnswer true); STick (Settle 0 (SaveAnswer true));
   SArrive GetRequest; SRespond 0 (FindAnswer true)].

Definition reads_server : Server :=
  default (mkServer init_world [] [] []) (exec_server reads_schedule (mkServer (world_at 100) [] [] [])).

Lemma server_monotonic_reads_witness :
  srv_sent reads_server !! 0%nat = Some (RespDeposits []) /\
  srv_sent reads_server !! 2%nat = Some (RespDeposits (deposits (srv_world reads_server))) /\
  [] `prefix_of` deposits (srv_world reads_server).
Proof.
  split_and!; [vm_compute; reflexivity|vm_compute; reflexivity|].
  apply (server_monotonic_reads (world_at 100) reads_server 0 2); [|vm_compute; reflexivity..|lia].
  apply exec_server_star with reads_schedule. vm_compute. reflexivity.
Defined.

Lemma server_runs_project_witness :
  exists w', star step (project (mkServer (world_at 100) [] [] [])) (mkConfig w' (srv_ticks reads_server)) /\
             lastProcessedBlock w' = lastProcessedBlock (srv_world reads_server) /\
             telegram w' = telegram (srv_world reads_server).
Proof.
  apply server_runs_project. apply exec_server_star with reads_schedule. vm_compute. reflexivity.
Defined.
